(** * cirrus, package [data]: display rows, status tables, row maps,
    the resource paginator drain and the tag / parameter loaders.

    A shallow embedding of [data] (the Go package that normalises
    CloudFormation change sets, stack events and resource summaries into
    [DisplayRow]s) together with the properties its specification states.

    Go values are modelled as follows.
    - [string] and the SDK's string-backed enums ([ResourceStatus],
      [StackStatus], [Replacement], [ChangeAction]) are [string]; the zero
      value is the empty string.
    - a pointer field [*T] is [option T]; [None] is [nil] and dereferencing it
      panics.
    - a slice is a [list].
    - a [map[string]DisplayRow] is a reference: a location ([nil] or an
      address) into a heap of [gmap string DisplayRow].
    - a function that can panic returns a [Result]; one that also allocates
      or writes maps runs in the state-and-panic monad [Run]. *)

From Stdlib Require Import ZArith Ascii.
From stdpp Require Import strings gmap.
From Equations Require Import Equations.
From Equations.Prop Require Import Logic.

Local Open Scope string_scope.

(** ** The AWS SDK types the package consumes (aws-sdk-go-v2, service
    [cloudformation]).  Only the fields this package reads, or that the
    specification mentions, are kept. *)

Module cloudformation.

Definition ResourceStatus := string.
Definition StackStatus := string.
Definition Replacement := string.
Definition ChangeAction := string.

(** The SDK's enum constants, with the wire values the SDK gives them. *)
Definition ResourceStatusCreateInProgress : ResourceStatus := "CREATE_IN_PROGRESS".
Definition ResourceStatusCreateFailed : ResourceStatus := "CREATE_FAILED".
Definition ResourceStatusCreateComplete : ResourceStatus := "CREATE_COMPLETE".
Definition ResourceStatusDeleteInProgress : ResourceStatus := "DELETE_IN_PROGRESS".
Definition ResourceStatusDeleteFailed : ResourceStatus := "DELETE_FAILED".
Definition ResourceStatusDeleteComplete : ResourceStatus := "DELETE_COMPLETE".
Definition ResourceStatusUpdateInProgress : ResourceStatus := "UPDATE_IN_PROGRESS".
Definition ResourceStatusUpdateFailed : ResourceStatus := "UPDATE_FAILED".
Definition ResourceStatusUpdateComplete : ResourceStatus := "UPDATE_COMPLETE".

Definition StackStatusCreateInProgress : StackStatus := "CREATE_IN_PROGRESS".
Definition StackStatusCreateFailed : StackStatus := "CREATE_FAILED".
Definition StackStatusCreateComplete : StackStatus := "CREATE_COMPLETE".
Definition StackStatusRollbackInProgress : StackStatus := "ROLLBACK_IN_PROGRESS".
Definition StackStatusRollbackFailed : StackStatus := "ROLLBACK_FAILED".
Definition StackStatusRollbackComplete : StackStatus := "ROLLBACK_COMPLETE".
Definition StackStatusDeleteInProgress : StackStatus := "DELETE_IN_PROGRESS".
Definition StackStatusDeleteFailed : StackStatus := "DELETE_FAILED".
Definition StackStatusDeleteComplete : StackStatus := "DELETE_COMPLETE".
Definition StackStatusUpdateInProgress : StackStatus := "UPDATE_IN_PROGRESS".
Definition StackStatusUpdateCompleteCleanupInProgress : StackStatus :=
  "UPDATE_COMPLETE_CLEANUP_IN_PROGRESS".
Definition StackStatusUpdateComplete : StackStatus := "UPDATE_COMPLETE".
Definition StackStatusUpdateRollbackInProgress : StackStatus :=
  "UPDATE_ROLLBACK_IN_PROGRESS".
Definition StackStatusUpdateRollbackFailed : StackStatus := "UPDATE_ROLLBACK_FAILED".
Definition StackStatusUpdateRollbackCompleteCleanupInProgress : StackStatus :=
  "UPDATE_ROLLBACK_COMPLETE_CLEANUP_IN_PROGRESS".
Definition StackStatusUpdateRollbackComplete : StackStatus := "UPDATE_ROLLBACK_COMPLETE".
Definition StackStatusReviewInProgress : StackStatus := "REVIEW_IN_PROGRESS".

Definition ChangeActionAdd : ChangeAction := "Add".
Definition ChangeActionModify : ChangeAction := "Modify".
Definition ChangeActionRemove : ChangeAction := "Remove".
Definition ChangeActionImport : ChangeAction := "Import".

(** [time.Time]: an instant, counted from Go's zero time. *)
Definition Time := Z.

Record ResourceChange := {
  rc_Action : ChangeAction;
  rc_LogicalResourceId : option string;
  rc_PhysicalResourceId : option string;
  rc_Replacement : Replacement;
  rc_ResourceType : option string;
}.

Record Change := {
  ch_ResourceChange : option ResourceChange;
  ch_Type : string;
}.

Record StackEvent := {
  ev_EventId : option string;
  ev_LogicalResourceId : option string;
  ev_PhysicalResourceId : option string;
  ev_ResourceStatus : ResourceStatus;
  ev_ResourceStatusReason : option string;
  ev_ResourceType : option string;
  ev_StackId : option string;
  ev_StackName : option string;
  ev_Timestamp : option Time;
}.

Record StackResourceSummary := {
  rs_LastUpdatedTimestamp : option Time;
  rs_LogicalResourceId : option string;
  rs_PhysicalResourceId : option string;
  rs_ResourceStatus : ResourceStatus;
  rs_ResourceStatusReason : option string;
  rs_ResourceType : option string;
}.

Record Tag := {
  tag_Key : option string;
  tag_Value : option string;
}.

(** [cloudformation.Parameter]; [Parameter] is a reserved word here. *)
Record StackParameter := {
  par_ParameterKey : option string;
  par_ParameterValue : option string;
  par_ResolvedValue : option string;
  par_UsePreviousValue : option bool;
}.

Record ListStackResourcesOutput := {
  out_StackResourceSummaries : list StackResourceSummary;
}.

End cloudformation.

Import cloudformation.

(** ** The data model of package [data] *)

(** [type DisplayRowSource string] *)
Definition DisplayRowSource := string.

Definition DisplayRowSourceChangeSet : DisplayRowSource := "change".
Definition DisplayRowSourceEvent : DisplayRowSource := "event".
Definition CloudformationStackResource : string := "AWS::CloudFormation::Stack".

Record DisplayRow := {
  LogicalResourceID : string;
  ResourceType : string;
  Status : ResourceStatus;
  Timestamp : Time;
  StatusReason : string;
  Replacement : cloudformation.Replacement;
  Action : ChangeAction;
  Source : DisplayRowSource;
  Active : bool;
}.

Record StackInfo := {
  StackID : string;
  ChangeSetName : string;
  StackName : string;
}.

(** A field left out of a Go composite literal takes its zero value. *)
Definition zeroString : string := "".
Definition zeroTime : Time := 0%Z.

(** ** Status tables *)

Definition PositiveEventStatus : list ResourceStatus := [
  ResourceStatusCreateComplete;
  ResourceStatusDeleteComplete;
  ResourceStatusUpdateComplete
].

Definition NegativeEventStatus : list ResourceStatus := [
  ResourceStatusCreateFailed;
  ResourceStatusDeleteFailed;
  ResourceStatusUpdateFailed
].

Definition PendingEventStatus : list ResourceStatus := [
  ResourceStatusCreateInProgress;
  ResourceStatusDeleteInProgress;
  ResourceStatusUpdateInProgress
].

Definition PositiveStackStatus : list StackStatus := [
  StackStatusCreateComplete;
  StackStatusDeleteComplete;
  StackStatusUpdateComplete;
  StackStatusRollbackComplete
].

Definition NegativeStackStatus : list StackStatus := [
  StackStatusCreateFailed;
  StackStatusDeleteFailed;
  StackStatusUpdateRollbackComplete;
  StackStatusUpdateRollbackFailed;
  StackStatusRollbackFailed
].

Definition PendingStackStatus : list StackStatus := [
  StackStatusCreateInProgress;
  StackStatusDeleteInProgress;
  StackStatusUpdateInProgress;
  StackStatusReviewInProgress;
  StackStatusUpdateRollbackInProgress;
  StackStatusRollbackInProgress;
  StackStatusUpdateCompleteCleanupInProgress;
  StackStatusUpdateRollbackCompleteCleanupInProgress
].

Definition RollbackStackStatus : list StackStatus := [
  StackStatusRollbackInProgress
].

(** Set membership in a table, as a decidable test. *)
Definition member (s : string) (table : list string) : bool :=
  bool_decide (s ∈ table).

(** Modelled from the spec: the Lifecycle Poller (not part of this package's
    source) stops polling when the current stack status is in
    Positive ∪ Negative. *)
Definition stopsPolling (s : StackStatus) : bool :=
  member s PositiveStackStatus || member s NegativeStackStatus.

(** ** Panics, and the monad the package's functions run in *)

(** The run-time panics the package's code can raise. *)
Inductive panic :=
| NilDereference      (* invalid memory address or nil pointer dereference *)
| NilMapAssignment    (* assignment to entry in nil map *)
| DanglingMap.        (* a map address that was never allocated; unreachable from Go *)

Inductive Result (A : Type) : Type :=
| Ok (a : A)
| Panic (p : panic).
Arguments Ok {A} a.
Arguments Panic {A} p.

#[global] Instance Result_ret : MRet Result := @Ok.
#[global] Instance Result_bind : MBind Result := fun A B f r =>
  match r with
  | Ok a => f a
  | Panic p => Panic p
  end.

(** [*p] *)
Definition deref {A : Type} (p : option A) : Result A :=
  match p with
  | Some a => Ok a
  | None => Panic NilDereference
  end.

(** A Go map value: [nil], or the address of a map object. *)
Abbreviation loc := nat.
Abbreviation mapref := (option loc).
Abbreviation heap := (gmap loc (gmap string DisplayRow)).

Definition Run (A : Type) : Type := heap -> Result (A * heap).

#[global] Instance Run_ret : MRet Run := fun A a h => Ok (a, h).
#[global] Instance Run_bind : MBind Run := fun A B f m h =>
  match m h with
  | Ok (a, h') => f a h'
  | Panic p => Panic p
  end.

Definition liftResult {A : Type} (r : Result A) : Run A := fun h =>
  match r with
  | Ok a => Ok (a, h)
  | Panic p => Panic p
  end.

(** [make(map[string]DisplayRow)]: a new, empty map at an unused address. *)
Definition make : Run mapref := fun h =>
  let l := fresh (dom h) in Ok (Some l, <[l := ∅]> h).

(** [m[k] = v] *)
Definition store (m : mapref) (k : string) (v : DisplayRow) : Run unit := fun h =>
  match m with
  | None => Panic NilMapAssignment
  | Some l =>
      match h !! l with
      | Some rows => Ok (tt, <[l := <[k := v]> rows]> h)
      | None => Panic DanglingMap
      end
  end.

(** The contents of a map value; a [nil] map reads as empty. *)
Definition contents (m : mapref) (h : heap) : option (gmap string DisplayRow) :=
  match m with
  | None => Some ∅
  | Some l => h !! l
  end.

(** The keys a [range] over the map visits, in the order the run time picks;
    Go leaves that order unspecified, so it is a parameter [order]. *)
Definition rangeKeys (order : gmap string DisplayRow -> list string)
    (m : mapref) : Run (list string) := fun h =>
  match contents m h with
  | Some rows => Ok (order rows, h)
  | None => Panic DanglingMap
  end.

(** The value [range] yields for key [k]: the entry's current value.  A key
    that is no longer in the map yields nothing. *)
Definition rangeValue (m : mapref) (k : string) : Run (option DisplayRow) := fun h =>
  match contents m h with
  | Some rows => Ok (rows !! k, h)
  | None => Panic DanglingMap
  end.

(** [for _, x := range xs { body x }] over a slice. *)
Fixpoint rangeSlice {A : Type} (xs : list A) (body : A -> Run unit) : Run unit :=
  match xs with
  | [] => mret tt
  | x :: rest => body x ;; rangeSlice rest body
  end.

(** ** Row normalizer *)

Definition CreateDisplayRowFromChange (change : Change) (active : bool) : Result DisplayRow :=
  rc ← deref (ch_ResourceChange change);
  logicalResourceID ← deref (rc_LogicalResourceId rc);
  resourceType ← deref (rc_ResourceType rc);
  mret {|
    LogicalResourceID := logicalResourceID;
    ResourceType := resourceType;
    Status := zeroString;
    Timestamp := zeroTime;
    StatusReason := zeroString;
    Replacement := rc_Replacement rc;
    Action := rc_Action rc;
    Source := DisplayRowSourceChangeSet;
    Active := active;
  |}.

Definition CreateDisplayRowFromEvent (event : StackEvent) : Result DisplayRow :=
  logicalResourceID ← deref (ev_LogicalResourceId event);
  resourceType ← deref (ev_ResourceType event);
  timestamp ← deref (ev_Timestamp event);
  mret {|
    LogicalResourceID := logicalResourceID;
    ResourceType := resourceType;
    Status := ev_ResourceStatus event;
    Timestamp := timestamp;
    StatusReason := zeroString;
    Replacement := zeroString;
    Action := zeroString;
    Source := DisplayRowSourceEvent;
    Active := false;
  |}.

Definition CreateDisplayRowFromResource (resource : StackResourceSummary) : Result DisplayRow :=
  logicalResourceID ← deref (rs_LogicalResourceId resource);
  resourceType ← deref (rs_ResourceType resource);
  mret {|
    LogicalResourceID := logicalResourceID;
    ResourceType := resourceType;
    Status := zeroString;
    Timestamp := zeroTime;
    StatusReason := zeroString;
    Replacement := zeroString;
    Action := ChangeActionRemove;
    Source := zeroString;
    Active := false;
  |}.

(** ** Row maps *)

(** The map key is evaluated before the right-hand side's call. *)
Definition ChangeMap (changes : list Change) (active : bool) : Run mapref :=
  mapChanges ← make;
  rangeSlice changes (fun change =>
    rc ← liftResult (deref (ch_ResourceChange change));
    key ← liftResult (deref (rc_LogicalResourceId rc));
    row ← liftResult (CreateDisplayRowFromChange change active);
    store mapChanges key row) ;;
  mret mapChanges.

Definition EventMap (events : list StackEvent) : Run mapref :=
  mapEvents ← make;
  rangeSlice events (fun event =>
    key ← liftResult (deref (ev_LogicalResourceId event));
    row ← liftResult (CreateDisplayRowFromEvent event);
    store mapEvents key row) ;;
  mret mapEvents.

Definition ResourceMap (resources : list StackResourceSummary) : Run mapref :=
  mapResources ← make;
  rangeSlice resources (fun resource =>
    key ← liftResult (deref (rs_LogicalResourceId resource));
    row ← liftResult (CreateDisplayRowFromResource resource);
    store mapResources key row) ;;
  mret mapResources.

(** [event.Active = true] on the loop's own copy of the row. *)
Definition setActive (active : bool) (event : DisplayRow) : DisplayRow := {|
  LogicalResourceID := LogicalResourceID event;
  ResourceType := ResourceType event;
  Status := Status event;
  Timestamp := Timestamp event;
  StatusReason := StatusReason event;
  Replacement := Replacement event;
  Action := Action event;
  Source := Source event;
  Active := active;
|}.

Definition ActivateDisplayRows (order : gmap string DisplayRow -> list string)
    (displayRows : mapref) : Run mapref :=
  activatedDisplayRows ← make;
  keys ← rangeKeys order displayRows;
  rangeSlice keys (fun logicalID =>
    entry ← rangeValue displayRows logicalID;
    match entry with
    | Some event =>
        let event := setActive true event in
        store activatedDisplayRows logicalID event
    | None => mret tt
    end) ;;
  mret activatedDisplayRows.

(** ** Errors *)

(** What [encoding/json] reports when [Unmarshal] fails. *)
Inductive json_error :=
| SyntaxError (msg : string) (offset : Z)
| UnmarshalTypeError (value : string) (field : string).

(** Go's [error] values, by dynamic type. *)
Inductive error :=
| errorString (s : string)                 (* errors.New(s) *)
| PathError (op path cause : string)       (* *os.PathError *)
| JSONError (e : json_error)               (* encoding/json's errors *)
| RequestError (code message : string).    (* a failed SDK request *)

(** ** Pagination collector *)

(** A request of the paginator either brings a page or fails. *)
Inductive fetch :=
| Fetched (page : ListStackResourcesOutput)
| FetchFailed (e : error).

(** The SDK's [ListStackResourcesPaginator], as this package observes it.
    [pending] holds the outcomes of the requests the service has yet to
    answer, in order; the page that carries no next token is the last of
    the list.  [curPage] and [err] are the pager's own fields. *)
Record ListStackResourcesPaginator := {
  pending : list fetch;
  curPage : option ListStackResourcesOutput;
  err : option error;
}.

(** [paginator.Next(ctx)]: one request.  A page is stored and [true]
    returned; a failure is stored in [err] and [false] returned; with no
    page left, [false]. *)
Definition Next (p : ListStackResourcesPaginator) : bool * ListStackResourcesPaginator :=
  match pending p with
  | [] => (false, p)
  | Fetched page :: rest =>
      (true, {| pending := rest; curPage := Some page; err := err p |})
  | FetchFailed e :: rest =>
      (false, {| pending := rest; curPage := curPage p; err := Some e |})
  end.

(** [paginator.CurrentPage()] *)
Definition CurrentPage (p : ListStackResourcesPaginator) : option ListStackResourcesOutput :=
  curPage p.

(** [paginator.Err()]; the package never calls it. *)
Definition Err (p : ListStackResourcesPaginator) : option error :=
  err p.

(** The loop of [GetResourcesFromPaginator].  The paginator is a (non-nil)
    pointer, so its final state is returned beside the slice; each turn that
    goes on has consumed one pending request, which is why the loop ends. *)
Equations GetResourcesLoop (paginator : ListStackResourcesPaginator)
    (resources : list StackResourceSummary)
    : Result (list StackResourceSummary * ListStackResourcesPaginator)
    by wf (length (pending paginator)) lt :=
GetResourcesLoop paginator resources with inspect (Next paginator) := {
  | exist _ (true, paginator') more =>
      match deref (CurrentPage paginator') with
      | Ok page =>
          GetResourcesLoop paginator' (resources ++ out_StackResourceSummaries page)
      | Panic p => Panic p
      end
  | exist _ (false, paginator') stop => Ok (resources, paginator')
  }.
Next Obligation.
  revert more. unfold Next.
  destruct (pending paginator) as [|[fetched|failure] rest]; intros [= <-]; simpl; lia.
Qed.

Definition GetResourcesFromPaginator (paginator : ListStackResourcesPaginator)
    : Result (list StackResourceSummary * ListStackResourcesPaginator) :=
  GetResourcesLoop paginator [].

(** ** Tag and parameter loaders *)

(** A path of the file system holds a file that can be read, or something
    that cannot (a directory, a file without read permission); a path that
    is not in the map does not exist. *)
Inductive file :=
| Readable (data : string)
| Unreadable (cause : string).

Abbreviation filesystem := (gmap string file).

(** [ioutil.ReadFile(location)] *)
Definition ReadFile (fs : filesystem) (location : string) : string * option error :=
  match fs !! location with
  | Some (Readable data) => (data, None)
  | Some (Unreadable cause) => ("", Some (PathError "open" location cause))
  | None => ("", Some (PathError "open" location "no such file or directory"))
  end.

(** [json.Unmarshal(data, &container)] for a slice of [T]: the container
    after the call, and the error.  The decoder is Go's standard library;
    it is a parameter here. *)
Definition Unmarshal (T : Type) : Type :=
  string -> list T -> list T * option json_error.

(** Package [colors] of this repository (not among the sources at hand):
    it decorates a message for the terminal.  Both functions are parameters. *)
Record colors := {
  colors_Error : string -> string;
  colors_Docs : string -> string;
}.

(** [fmt.Sprintf("%s \n %s", a, b)] *)
Definition Sprintf_s_nl_s (a b : string) : string :=
  a ++ " " ++ String "010"%char " " ++ b.

(** [errors.New] *)
Definition errors_New (s : string) : error := errorString s.

(** A nil slice and an empty slice are both [[]]. *)
Definition GetTags (c : colors) (fs : filesystem) (unmarshal : Unmarshal Tag)
    (location : string) : list Tag * option error :=
  let invalidJSON := "Unable to load tags. tags must be valid JSON and only of type string" in
  let docsMessage := "https://docs.aws.amazon.com/AWSCloudFormation/latest/UserGuide/aws-properties-resource-tags.html" in
  let errorMessage := Sprintf_s_nl_s (colors_Error c invalidJSON) (colors_Docs c docsMessage) in
  let container : list Tag := [] in
  let '(tags, err) := ReadFile fs location in
  match err with
  | Some _ => (container, None)
  | None =>
      let '(container, err) := unmarshal tags container in
      match err with
      | Some _ => ([], Some (errors_New errorMessage))
      | None => (container, None)
      end
  end.

Definition GetParameters (c : colors) (fs : filesystem) (unmarshal : Unmarshal StackParameter)
    (location : string) : list StackParameter * option error :=
  let invalidJSON := "Unable to load parameters. Parameters must be valid JSON and only of type string" in
  let docsMessage := "https://aws.amazon.com/blogs/devops/passing-parameters-to-cloudformation-stacks-with-the-aws-cli-and-powershell/" in
  let errorMessage := Sprintf_s_nl_s (colors_Error c invalidJSON) (colors_Docs c docsMessage) in
  let container : list StackParameter := [] in
  let '(parameters, err) := ReadFile fs location in
  match err with
  | Some _ => (container, None)
  | None =>
      let '(container, err) := unmarshal parameters container in
      match err with
      | Some _ => ([], Some (errors_New errorMessage))
      | None => (container, None)
      end
  end.

(** ** Vocabulary of the specification *)

(** The nine resource statuses of the specification: an operation and how
    it stands. *)
Inductive operation := Create | Delete | Update.
Inductive variant := Complete | Failed | InProgress.

Definition resourceStatus (op : operation) (v : variant) : ResourceStatus :=
  match op, v with
  | Create, Complete => ResourceStatusCreateComplete
  | Create, Failed => ResourceStatusCreateFailed
  | Create, InProgress => ResourceStatusCreateInProgress
  | Delete, Complete => ResourceStatusDeleteComplete
  | Delete, Failed => ResourceStatusDeleteFailed
  | Delete, InProgress => ResourceStatusDeleteInProgress
  | Update, Complete => ResourceStatusUpdateComplete
  | Update, Failed => ResourceStatusUpdateFailed
  | Update, InProgress => ResourceStatusUpdateInProgress
  end.

(** The table that holds the statuses of a variant. *)
Definition eventTable (v : variant) : list ResourceStatus :=
  match v with
  | Complete => PositiveEventStatus
  | Failed => NegativeEventStatus
  | InProgress => PendingEventStatus
  end.

(** The required sub-fields of a change, read through its resource change. *)
Definition changeLogicalResourceId (change : Change) : option string :=
  rc ← ch_ResourceChange change; rc_LogicalResourceId rc.

Definition changeResourceType (change : Change) : option string :=
  rc ← ch_ResourceChange change; rc_ResourceType rc.

(** ** Reading a row map off its input *)

(** The key and the row one iteration of a map builder stores. *)
Definition changeEntry (active : bool) (change : Change) : Result (string * DisplayRow) :=
  rc ← deref (ch_ResourceChange change);
  key ← deref (rc_LogicalResourceId rc);
  row ← CreateDisplayRowFromChange change active;
  mret (key, row).

Definition eventEntry (event : StackEvent) : Result (string * DisplayRow) :=
  key ← deref (ev_LogicalResourceId event);
  row ← CreateDisplayRowFromEvent event;
  mret (key, row).

Definition resourceEntry (resource : StackResourceSummary) : Result (string * DisplayRow) :=
  key ← deref (rs_LogicalResourceId resource);
  row ← CreateDisplayRowFromResource resource;
  mret (key, row).

(** The entries of a whole slice, in order; the first panic ends the run. *)
Fixpoint entries {A : Type} (entry : A -> Result (string * DisplayRow)) (xs : list A)
    : Result (list (string * DisplayRow)) :=
  match xs with
  | [] => Ok []
  | x :: rest =>
      kv ← entry x;
      kvs ← entries entry rest;
      mret (kv :: kvs)
  end.

(** Storing entries one after the other. *)
Definition storeAll (kvs : list (string * DisplayRow)) (rows : gmap string DisplayRow)
    : gmap string DisplayRow :=
  foldl (fun acc kv => <[kv.1 := kv.2]> acc) rows kvs.

(** What the specification asks of a row map built from the slice [xs],
    whose records have the logical id [id] and convert by [conv]: its keys
    are the logical ids of [xs], and the row under a key is the conversion
    of the last record of [xs] with that id. *)
Definition keyedLastWins {A : Type} (id : A -> option string)
    (conv : A -> Result DisplayRow) (xs : list A)
    (rows : gmap string DisplayRow) : Prop :=
  (forall k, k ∈ dom rows <-> exists x, x ∈ xs /\ id x = Some k)
  /\ forall i x k,
      xs !! i = Some x -> id x = Some k ->
      (forall j y, i < j -> xs !! j = Some y -> id y <> Some k) ->
      exists row, conv x = Ok row /\ rows !! k = Some row.

(** A call that returns a new map holding [rows] and touches nothing else. *)
Definition returnsNewMap (h : heap) (r : Result (mapref * heap))
    (P : gmap string DisplayRow -> Prop) : Prop :=
  exists q rows, r = Ok (Some q, <[q := rows]> h) /\ h !! q = None /\ P rows.

(** A record with all the sub-fields its conversion dereferences. *)
Definition changeComplete (change : Change) : Prop :=
  is_Some (changeLogicalResourceId change) /\ is_Some (changeResourceType change).

Definition eventComplete (event : StackEvent) : Prop :=
  is_Some (ev_LogicalResourceId event) /\ is_Some (ev_ResourceType event)
  /\ is_Some (ev_Timestamp event).

Definition resourceComplete (resource : StackResourceSummary) : Prop :=
  is_Some (rs_LogicalResourceId resource) /\ is_Some (rs_ResourceType resource).

(** What the loop of [ActivateDisplayRows] stores while it visits [keys]
    of the map [rows]. *)
Definition activatedEntries (rows : gmap string DisplayRow) (keys : list string)
    : list (string * DisplayRow) :=
  omap (fun k => (fun event => (k, setActive true event)) <$> rows !! k) keys.

(** The resource summaries of a run of pages, in page order. *)
Definition summariesOf (pages : list ListStackResourcesOutput) : list StackResourceSummary :=
  concat (map out_StackResourceSummaries pages).

(** The page [CurrentPage] shows after [pages] have been fetched, starting
    from [cur]. *)
Definition pageAfter (cur : option ListStackResourcesOutput)
    (pages : list ListStackResourcesOutput) : option ListStackResourcesOutput :=
  match last pages with
  | Some page => Some page
  | None => cur
  end.

(** ** Sample records *)

Definition sampleResourceChange : ResourceChange := {|
  rc_Action := ChangeActionAdd;
  rc_LogicalResourceId := Some "Bucket";
  rc_PhysicalResourceId := None;
  rc_Replacement := "False";
  rc_ResourceType := Some "AWS::S3::Bucket";
|}.

Definition sampleChange : Change := {|
  ch_ResourceChange := Some sampleResourceChange;
  ch_Type := "Resource";
|}.

Definition sampleEvent : StackEvent := {|
  ev_EventId := Some "e-1";
  ev_LogicalResourceId := Some "Bucket";
  ev_PhysicalResourceId := None;
  ev_ResourceStatus := ResourceStatusCreateFailed;
  ev_ResourceStatusReason := Some "Bucket name already exists";
  ev_ResourceType := Some "AWS::S3::Bucket";
  ev_StackId := Some "stack/1";
  ev_StackName := Some "demo";
  ev_Timestamp := Some 1600000000%Z;
|}.

Definition sampleResource : StackResourceSummary := {|
  rs_LastUpdatedTimestamp := Some 1600000000%Z;
  rs_LogicalResourceId := Some "Bucket";
  rs_PhysicalResourceId := Some "demo-bucket";
  rs_ResourceStatus := ResourceStatusCreateComplete;
  rs_ResourceStatusReason := None;
  rs_ResourceType := Some "AWS::S3::Bucket";
|}.

(** An event the service sent without its logical id. *)
Definition eventWithoutId : StackEvent := {|
  ev_EventId := Some "e-2";
  ev_LogicalResourceId := None;
  ev_PhysicalResourceId := None;
  ev_ResourceStatus := ResourceStatusCreateInProgress;
  ev_ResourceStatusReason := None;
  ev_ResourceType := Some "AWS::S3::Bucket";
  ev_StackId := Some "stack/1";
  ev_StackName := Some "demo";
  ev_Timestamp := Some 1600000001%Z;
|}.

(** A second event for the same logical id, fetched after [sampleEvent]
    although its timestamp is earlier. *)
Definition laterEvent : StackEvent := {|
  ev_EventId := Some "e-0";
  ev_LogicalResourceId := Some "Bucket";
  ev_PhysicalResourceId := None;
  ev_ResourceStatus := ResourceStatusCreateInProgress;
  ev_ResourceStatusReason := None;
  ev_ResourceType := Some "AWS::S3::Bucket";
  ev_StackId := Some "stack/1";
  ev_StackName := Some "demo";
  ev_Timestamp := Some 1599999999%Z;
|}.

(** The change set of the specification's example: an Add for "A" and a
    Remove for "B". *)
Definition changeOf (action : ChangeAction) (id : string) : Change := {|
  ch_ResourceChange := Some {|
    rc_Action := action;
    rc_LogicalResourceId := Some id;
    rc_PhysicalResourceId := None;
    rc_Replacement := zeroString;
    rc_ResourceType := Some "AWS::SNS::Topic";
  |};
  ch_Type := "Resource";
|}.

Definition sampleChanges : list Change :=
  [changeOf ChangeActionAdd "A"; changeOf ChangeActionRemove "B"].

(** A row that is not active, and a heap whose address 0 holds a map
    with that row. *)
Definition inactiveRow : DisplayRow := {|
  LogicalResourceID := "Bucket";
  ResourceType := "AWS::S3::Bucket";
  Status := ResourceStatusCreateInProgress;
  Timestamp := 1600000000%Z;
  StatusReason := zeroString;
  Replacement := zeroString;
  Action := zeroString;
  Source := DisplayRowSourceEvent;
  Active := false;
|}.

Definition sampleHeap : heap := {[ 0 := {[ "Bucket" := inactiveRow ]} ]}.

(** One admissible iteration order: the order of the map's own listing. *)
Definition listingOrder (rows : gmap string DisplayRow) : list string :=
  (map_to_list rows).*1.

(** A listing of two pages whose second request fails. *)
Definition otherResource : StackResourceSummary := {|
  rs_LastUpdatedTimestamp := Some 1600000002%Z;
  rs_LogicalResourceId := Some "Queue";
  rs_PhysicalResourceId := Some "demo-queue";
  rs_ResourceStatus := ResourceStatusCreateComplete;
  rs_ResourceStatusReason := None;
  rs_ResourceType := Some "AWS::SQS::Queue";
|}.

Definition firstPage : ListStackResourcesOutput :=
  {| out_StackResourceSummaries := [sampleResource] |}.

Definition secondPage : ListStackResourcesOutput :=
  {| out_StackResourceSummaries := [otherResource] |}.

Definition throttled : error := RequestError "Throttling" "Rate exceeded".

Definition newPaginator (outcomes : list fetch) : ListStackResourcesPaginator :=
  {| pending := outcomes; curPage := None; err := None |}.

(** The second request fails once; the service would have answered a
    further request with the second page. *)
Definition failingPaginator : ListStackResourcesPaginator :=
  newPaginator [Fetched firstPage; FetchFailed throttled; Fetched secondPage].

(** A stack whose whole listing is the first page. *)
Definition onePagePaginator : ListStackResourcesPaginator :=
  newPaginator [Fetched firstPage].

(** Pages of sizes 3, 0, 5 and 2. *)
Definition pageOfSize (n : nat) : ListStackResourcesOutput :=
  {| out_StackResourceSummaries := replicate n sampleResource |}.

(** A terminal without colours, a decoder that takes the empty array only,
    and a file system with a truncated tag file and a file that cannot be
    opened. *)
Definition plainColors : colors :=
  {| colors_Error := fun s => s; colors_Docs := fun s => s |}.

Definition emptyArrayDecoder (T : Type) : Unmarshal T := fun data container =>
  if decide (data = "[]") then ([], None)
  else (container, Some (SyntaxError "unexpected end of JSON input" 1)).

Definition sampleFiles : filesystem :=
  {[ "tags.json" := Readable "[{";
     "empty.json" := Readable "[]";
     "secret.json" := Unreadable "permission denied" ]}.

(** ** Further vocabulary *)

(** The rows of the map a call returned, read in the heap it returned. *)
Definition rowsOf (r : Result (mapref * heap)) : option (gmap string DisplayRow) :=
  match r with
  | Ok (m, h) => contents m h
  | Panic _ => None
  end.

(** The pages that arrive before the first request that fails. *)
Fixpoint fetchedPrefix (outcomes : list fetch) : list ListStackResourcesOutput :=
  match outcomes with
  | Fetched page :: rest => page :: fetchedPrefix rest
  | _ => []
  end.

(** The outcomes from the first failed request on. *)
Fixpoint fromFirstFailure (outcomes : list fetch) : list fetch :=
  match outcomes with
  | Fetched _ :: rest => fromFirstFailure rest
  | _ => outcomes
  end.

(** ** Command [down] (cmd/down.go) *)

(** Package [cfn] of this repository (not among the sources at hand) talks
    to AWS.  A call of one of its two functions is a node of the program
    below; what the call answers is the (possibly nil) error it returns. *)
Inductive cfnCall :=
| VerifyAWSCredentials
| DeleteStack (stackName : string).

Inductive Cmd (A : Type) : Type :=
| Return (a : A)
| Call (c : cfnCall) (k : option error -> Cmd A).
Arguments Return {A} a.
Arguments Call {A} c k.

Fixpoint bindCmd {A B : Type} (cmd : Cmd A) (f : A -> Cmd B) : Cmd B :=
  match cmd with
  | Return a => f a
  | Call c k => Call c (fun answer => bindCmd (k answer) f)
  end.

(** [Down] manages the stack deletion lifecycle. *)
Definition Down (stackName : string) : Cmd (option error) :=
  Call VerifyAWSCredentials (fun err =>
    match err with
    | Some _ => Return err
    | None =>
        Call (DeleteStack stackName) (fun err =>
          match err with
          | Some _ => Return err
          | None => Return None
          end)
    end).

(** [cli.Context]: the string flags that were set.  [c.String(name)] is the
    flag's value, or the empty string for a flag that is not set. *)
Record Context := {
  stringFlags : gmap string string;
}.

Definition Context_String (c : Context) (name : string) : string :=
  default "" (stringFlags c !! name).

Definition downAction (c : Context) : Cmd (option error) :=
  bindCmd (Down (Context_String c "stack")) (fun err =>
    match err with
    | Some _ => Return err
    | None => Return None
    end).

(** [cli.StringFlag] and [cli.Command], with the fields the file sets. *)
Record StringFlag := {
  flag_Name : string;
  flag_Aliases : list string;
  flag_Usage : string;
  flag_Required : bool;
}.

Record Command := {
  cmd_Name : string;
  cmd_Usage : string;
  cmd_Action : Context -> Cmd (option error);
  cmd_Flags : list StringFlag;
}.

Definition downFlags : list StringFlag := [
  {| flag_Name := "stack";
     flag_Aliases := ["s"];
     flag_Usage := "Specifies stack name";
     flag_Required := true |}
].

Definition DownCommand : Command := {|
  cmd_Name := "down";
  cmd_Usage := "Bring down a CloudFormation template and watch stack events";
  cmd_Action := downAction;
  cmd_Flags := downFlags;
|}.

(** An implementation of package [cfn] over some state of the outside
    world, and the run of a program against it: the value returned, the
    final state and the calls made, in order. *)
Record cfnPackage (W : Type) := {
  verifyAWSCredentials : W -> option error * W;
  deleteStack : string -> W -> option error * W;
}.
Arguments verifyAWSCredentials {W} _ _.
Arguments deleteStack {W} _ _ _.

Definition perform {W : Type} (pkg : cfnPackage W) (c : cfnCall) (w : W) : option error * W :=
  match c with
  | VerifyAWSCredentials => verifyAWSCredentials pkg w
  | DeleteStack stackName => deleteStack pkg stackName w
  end.

Fixpoint exec {W A : Type} (pkg : cfnPackage W) (cmd : Cmd A) (w : W)
    (calls : list cfnCall) : A * W * list cfnCall :=
  match cmd with
  | Return a => (a, w, calls)
  | Call c k =>
      let '(answer, w') := perform pkg c w in
      exec pkg (k answer) w' (calls ++ [c])
  end.

(** ** Further sample data *)

(** An account whose stacks are the state of the world: credentials are
    good or not, and deleting a stack that does not exist fails. *)
Definition sampleCfn (credentialsOk : bool) : cfnPackage (list string) := {|
  verifyAWSCredentials := fun stacks =>
    if credentialsOk then (None, stacks)
    else (Some (RequestError "ExpiredToken" "The security token is expired"), stacks);
  deleteStack := fun stackName stacks =>
    if decide (stackName ∈ stacks) then (None, filter (fun s => s <> stackName) stacks)
    else (Some (RequestError "ValidationError" "Stack does not exist"), stacks);
|}.

Definition downContext : Context := {| stringFlags := {[ "stack" := "demo" ]} |}.

(** A resource summary without its resource type. *)
Definition resourceWithoutType : StackResourceSummary := {|
  rs_LastUpdatedTimestamp := None;
  rs_LogicalResourceId := Some "Topic";
  rs_PhysicalResourceId := None;
  rs_ResourceStatus := ResourceStatusDeleteInProgress;
  rs_ResourceStatusReason := None;
  rs_ResourceType := None;
|}.

(** The row of [laterEvent]. *)
Definition laterRow : DisplayRow := {|
  LogicalResourceID := "Bucket";
  ResourceType := "AWS::S3::Bucket";
  Status := ResourceStatusCreateInProgress;
  Timestamp := 1599999999%Z;
  StatusReason := zeroString;
  Replacement := zeroString;
  Action := zeroString;
  Source := DisplayRowSourceEvent;
  Active := false;
|}.

(** The rows of [sampleChanges] with the flag [active]. *)
Definition changeRow (action : ChangeAction) (id : string) (active : bool) : DisplayRow := {|
  LogicalResourceID := id;
  ResourceType := "AWS::SNS::Topic";
  Status := zeroString;
  Timestamp := zeroTime;
  StatusReason := zeroString;
  Replacement := zeroString;
  Action := action;
  Source := DisplayRowSourceChangeSet;
  Active := active;
|}.

Definition sampleChangeRows (active : bool) : gmap string DisplayRow :=
  {[ "A" := changeRow ChangeActionAdd "A" active;
     "B" := changeRow ChangeActionRemove "B" active ]}.

(** The rows of [sampleResource] and [otherResource]. *)
Definition resourceRow (id ty : string) : DisplayRow := {|
  LogicalResourceID := id;
  ResourceType := ty;
  Status := zeroString;
  Timestamp := zeroTime;
  StatusReason := zeroString;
  Replacement := zeroString;
  Action := ChangeActionRemove;
  Source := zeroString;
  Active := false;
|}.

(** Another admissible iteration order: the listing backwards. *)
Definition backwardsOrder (rows : gmap string DisplayRow) : list string :=
  reverse (listingOrder rows).

(** A heap whose address 0 holds the inactive rows of [sampleChanges]. *)
Definition changesHeap : heap := {[ 0 := sampleChangeRows false ]}.

(** * Properties *)

(** ** Status classifier *)

Lemma resourceStatus_inj op1 v1 op2 v2 :
  resourceStatus op1 v1 = resourceStatus op2 v2 -> op1 = op2 /\ v1 = v2.
Proof. destruct op1, v1, op2, v2; simpl; intros H; (done || discriminate H). Qed.

Lemma eventTable_elem (v : variant) (s : ResourceStatus) :
  s ∈ eventTable v <-> exists op, s = resourceStatus op v.
Proof.
  destruct v; simpl;
    unfold PositiveEventStatus, NegativeEventStatus, PendingEventStatus;
    rewrite !elem_of_cons, elem_of_nil.
  all: split.
  all: try (intros [->|[->|[->|[]]]];
            [by exists Create | by exists Delete | by exists Update]).
  all: intros [[] ->]; simpl; tauto.
Qed.

(** C6: the three resource-level tables partition the nine
    {Create, Delete, Update} x {Complete, Failed, InProgress} statuses.
    Each table holds exactly the Create/Delete/Update triple of its variant
    (the same shape for each operation), every one of the nine statuses is in
    the table of its variant, the nine statuses are pairwise distinct, and no
    status is in two tables. *)
Theorem event_status_partition :
  (forall (v : variant) (s : ResourceStatus),
      s ∈ eventTable v <-> exists op, s = resourceStatus op v)
  /\ (forall op v, resourceStatus op v ∈ eventTable v)
  /\ (forall op v v', resourceStatus op v ∈ eventTable v' -> v = v')
  /\ (forall (s : ResourceStatus) v v', s ∈ eventTable v -> s ∈ eventTable v' -> v = v')
  /\ NoDup (PositiveEventStatus ++ NegativeEventStatus ++ PendingEventStatus)
  /\ length (PositiveEventStatus ++ NegativeEventStatus ++ PendingEventStatus) = 9.
Proof.
  split; [exact eventTable_elem|].
  split; [intros op v; apply eventTable_elem; by exists op|].
  split.
  { intros op v v' [op' E]%eventTable_elem.
    by destruct (resourceStatus_inj _ _ _ _ E). }
  split.
  { intros s v v' [op ->]%eventTable_elem [op' E]%eventTable_elem.
    by destruct (resourceStatus_inj _ _ _ _ E). }
  split; [|reflexivity].
  apply (bool_decide_unpack _). vm_compute. reflexivity.
Qed.

(** C8: a status of [RollbackStackStatus] is in neither terminal table and
    is in the pending table, so it does not stop the polling loop. *)
Theorem rollback_status_is_pending (s : StackStatus) :
  s ∈ RollbackStackStatus ->
  (s ∉ PositiveStackStatus) /\ (s ∉ NegativeStackStatus) /\ (s ∈ PendingStackStatus)
  /\ stopsPolling s = false.
Proof.
  unfold RollbackStackStatus. intros ->%list_elem_of_singleton.
  repeat split.
  - apply (bool_decide_unpack _). vm_compute. reflexivity.
  - apply (bool_decide_unpack _). vm_compute. reflexivity.
  - apply (bool_decide_unpack _). vm_compute. reflexivity.
Qed.

Lemma rollback_status_is_pending_witness :
  (StackStatusRollbackInProgress ∉ PositiveStackStatus)
  /\ (StackStatusRollbackInProgress ∉ NegativeStackStatus)
  /\ (StackStatusRollbackInProgress ∈ PendingStackStatus)
  /\ stopsPolling StackStatusRollbackInProgress = false.
Proof.
  apply (rollback_status_is_pending StackStatusRollbackInProgress).
  apply (bool_decide_unpack _). vm_compute. reflexivity.
Defined.

(** ** Row normalizer *)

Lemma CreateDisplayRowFromChange_outcome (change : Change) (active : bool) :
  match CreateDisplayRowFromChange change active with
  | Ok row =>
      exists rc, ch_ResourceChange change = Some rc
      /\ rc_LogicalResourceId rc = Some (LogicalResourceID row)
      /\ rc_ResourceType rc = Some (ResourceType row)
      /\ Replacement row = rc_Replacement rc
      /\ Action row = rc_Action rc
      /\ Source row = DisplayRowSourceChangeSet
      /\ Active row = active
      /\ Status row = zeroString /\ Timestamp row = zeroTime
      /\ StatusReason row = zeroString
  | Panic p =>
      p = NilDereference
      /\ (changeLogicalResourceId change = None \/ changeResourceType change = None)
  end.
Proof.
  unfold CreateDisplayRowFromChange, changeLogicalResourceId, changeResourceType.
  destruct change as [[rc|] ty]; simpl; [|tauto].
  destruct rc as [a [id|] ph r [t|]]; simpl; eauto 12.
Qed.

Lemma CreateDisplayRowFromEvent_outcome (event : StackEvent) :
  match CreateDisplayRowFromEvent event with
  | Ok row =>
      ev_LogicalResourceId event = Some (LogicalResourceID row)
      /\ ev_ResourceType event = Some (ResourceType row)
      /\ Status row = ev_ResourceStatus event
      /\ ev_Timestamp event = Some (Timestamp row)
      /\ Source row = DisplayRowSourceEvent
      /\ Active row = false
      /\ StatusReason row = zeroString
      /\ Replacement row = zeroString /\ Action row = zeroString
  | Panic p =>
      p = NilDereference
      /\ (ev_LogicalResourceId event = None \/ ev_ResourceType event = None
          \/ ev_Timestamp event = None)
  end.
Proof.
  unfold CreateDisplayRowFromEvent.
  destruct event as [eid [id|] ph st rs [ty|] sid sn [ts|]]; simpl; tauto.
Qed.

Lemma CreateDisplayRowFromResource_outcome (resource : StackResourceSummary) :
  match CreateDisplayRowFromResource resource with
  | Ok row =>
      rs_LogicalResourceId resource = Some (LogicalResourceID row)
      /\ rs_ResourceType resource = Some (ResourceType row)
      /\ Action row = ChangeActionRemove
      /\ Source row = zeroString
      /\ Active row = false
      /\ Status row = zeroString /\ Timestamp row = zeroTime
      /\ StatusReason row = zeroString /\ Replacement row = zeroString
  | Panic p =>
      p = NilDereference
      /\ (rs_LogicalResourceId resource = None \/ rs_ResourceType resource = None)
  end.
Proof.
  unfold CreateDisplayRowFromResource.
  destruct resource as [lu [id|] ph st rs [ty|]]; simpl; tauto.
Qed.

(** C3: a conversion ends in the nil-dereference panic exactly when a
    required sub-field of its record is missing (the logical id, the
    resource type, for events the timestamp), and it returns a row, hence
    does not panic, exactly when all of them are present.  No record is
    skipped and no field is defaulted. *)
Theorem conversion_panics_iff_subfield_missing :
  (forall change active,
      (CreateDisplayRowFromChange change active = Panic NilDereference
       <-> changeLogicalResourceId change = None \/ changeResourceType change = None)
      /\ ((exists row, CreateDisplayRowFromChange change active = Ok row)
          <-> is_Some (changeLogicalResourceId change)
              /\ is_Some (changeResourceType change)))
  /\ (forall event,
      (CreateDisplayRowFromEvent event = Panic NilDereference
       <-> ev_LogicalResourceId event = None \/ ev_ResourceType event = None
           \/ ev_Timestamp event = None)
      /\ ((exists row, CreateDisplayRowFromEvent event = Ok row)
          <-> is_Some (ev_LogicalResourceId event) /\ is_Some (ev_ResourceType event)
              /\ is_Some (ev_Timestamp event)))
  /\ (forall resource,
      (CreateDisplayRowFromResource resource = Panic NilDereference
       <-> rs_LogicalResourceId resource = None \/ rs_ResourceType resource = None)
      /\ ((exists row, CreateDisplayRowFromResource resource = Ok row)
          <-> is_Some (rs_LogicalResourceId resource)
              /\ is_Some (rs_ResourceType resource))).
Proof.
  split; [|split].
  - intros change active.
    pose proof (CreateDisplayRowFromChange_outcome change active) as H.
    unfold changeLogicalResourceId, changeResourceType in *.
    destruct (CreateDisplayRowFromChange change active) as [row|p].
    + destruct H as (rc & -> & Hid & Hty & _). simpl. rewrite Hid, Hty.
      split; split; try (intros [?|?]; discriminate); try discriminate; eauto.
    + destruct H as [-> H]. split; [tauto|].
      split; [intros [row ?]; discriminate|].
      intros [[x Hx] [y Hy]]. destruct H; congruence.
  - intros event.
    pose proof (CreateDisplayRowFromEvent_outcome event) as H.
    destruct (CreateDisplayRowFromEvent event) as [row|p].
    + destruct H as (Hid & Hty & _ & Hts & _). rewrite Hid, Hty, Hts.
      split; split; try (intros [?|[?|?]]; discriminate); try discriminate; eauto.
    + destruct H as [-> H]. split; [tauto|].
      split; [intros [row ?]; discriminate|].
      intros ([x Hx] & [y Hy] & [z Hz]). destruct H as [|[|]]; congruence.
  - intros resource.
    pose proof (CreateDisplayRowFromResource_outcome resource) as H.
    destruct (CreateDisplayRowFromResource resource) as [row|p].
    + destruct H as (Hid & Hty & _). rewrite Hid, Hty.
      split; split; try (intros [?|?]; discriminate); try discriminate; eauto.
    + destruct H as [-> H]. split; [tauto|].
      split; [intros [row ?]; discriminate|].
      intros [[x Hx] [y Hy]]. destruct H; congruence.
Qed.

(** C7: for every stack event, the row [CreateDisplayRowFromEvent] returns
    takes its logical id, resource type, status and timestamp from the
    event, is tagged with the Event source and is not active.  The function
    returns no row only for an event with a nil logical id, resource type or
    timestamp, where it panics. *)
Theorem CreateDisplayRowFromEvent_fields (event : StackEvent) :
  match CreateDisplayRowFromEvent event with
  | Ok row =>
      ev_LogicalResourceId event = Some (LogicalResourceID row)
      /\ ev_ResourceType event = Some (ResourceType row)
      /\ Status row = ev_ResourceStatus event
      /\ ev_Timestamp event = Some (Timestamp row)
      /\ Source row = DisplayRowSourceEvent
      /\ Active row = false
  | Panic _ =>
      ev_LogicalResourceId event = None \/ ev_ResourceType event = None
      \/ ev_Timestamp event = None
  end.
Proof.
  pose proof (CreateDisplayRowFromEvent_outcome event) as H.
  destruct (CreateDisplayRowFromEvent event); tauto.
Qed.

(** C9: no converter fills in [StatusReason]: every row a converter returns
    has the empty status reason, whatever status reason the event or the
    resource summary carries. *)
Theorem converters_leave_StatusReason_empty :
  (forall change active row,
      CreateDisplayRowFromChange change active = Ok row -> StatusReason row = "")
  /\ (forall event row,
      CreateDisplayRowFromEvent event = Ok row -> StatusReason row = "")
  /\ (forall resource row,
      CreateDisplayRowFromResource resource = Ok row -> StatusReason row = "").
Proof.
  split; [|split].
  - intros change active row E.
    pose proof (CreateDisplayRowFromChange_outcome change active) as H.
    rewrite E in H. destruct H as (rc & H). tauto.
  - intros event row E.
    pose proof (CreateDisplayRowFromEvent_outcome event) as H.
    rewrite E in H. tauto.
  - intros resource row E.
    pose proof (CreateDisplayRowFromResource_outcome resource) as H.
    rewrite E in H. tauto.
Qed.

(** An event that carries a status reason still yields a row without one. *)
Lemma converters_leave_StatusReason_empty_witness :
  ev_ResourceStatusReason sampleEvent = Some "Bucket name already exists"
  /\ exists row, CreateDisplayRowFromEvent sampleEvent = Ok row /\ StatusReason row = "".
Proof.
  split; [reflexivity|].
  eexists. split; [reflexivity|].
  apply (proj1 (proj2 converters_leave_StatusReason_empty) sampleEvent).
  reflexivity.
Defined.

(** ** Row maps *)

Section RowMaps.

Implicit Types (h : heap) (rows : gmap string DisplayRow)
  (kvs : list (string * DisplayRow)) (q : loc).

Lemma make_fresh h :
  make h = Ok (Some (fresh (dom h)), <[fresh (dom h) := ∅]> h)
  /\ h !! fresh (dom h) = None.
Proof. split; [reflexivity|]. apply not_elem_of_dom, is_fresh. Qed.

Lemma storeAll_snoc kvs k v rows :
  storeAll (kvs ++ [(k, v)]) rows = <[k := v]> (storeAll kvs rows).
Proof. unfold storeAll. by rewrite foldl_app. Qed.

Lemma storeAll_cons kvs k v rows :
  storeAll ((k, v) :: kvs) rows = storeAll kvs (<[k := v]> rows).
Proof. reflexivity. Qed.

Lemma storeAll_dom kvs rows :
  dom (storeAll kvs rows) = list_to_set kvs.*1 ∪ dom rows.
Proof.
  revert rows. induction kvs as [|[k v] kvs IH]; intros rows.
  - simpl. by rewrite (left_id_L ∅ (∪)).
  - rewrite storeAll_cons, IH, dom_insert_L. simpl.
    by rewrite (assoc_L (∪)), (comm_L (∪) {[k]}).
Qed.

(** The last entry stored under a key is the one that stays. *)
Lemma storeAll_last kvs rows i k v :
  kvs !! i = Some (k, v) ->
  (forall j kv, i < j -> kvs !! j = Some kv -> kv.1 <> k) ->
  storeAll kvs rows !! k = Some v.
Proof.
  revert i. induction kvs as [|[k' v'] kvs IH] using rev_ind; intros i Hi Hlast.
  - by rewrite lookup_nil in Hi.
  - rewrite storeAll_snoc.
    destruct (decide (i = length kvs)) as [->|Hne].
    + rewrite list_lookup_middle in Hi by done.
      injection Hi as -> ->. by rewrite lookup_insert_eq.
    + assert (i < length kvs) as Hlt.
      { apply lookup_lt_Some in Hi. rewrite length_app in Hi. simpl in Hi. lia. }
      rewrite lookup_app_l in Hi by done.
      assert (k' <> k) as Hk.
      { apply (Hlast (length kvs) (k', v')); [done|].
        by rewrite list_lookup_middle. }
      rewrite lookup_insert_ne by done.
      apply (IH i); [done|].
      intros j kv Hj Hkv. apply (Hlast j kv); [done|].
      rewrite lookup_app_l; [done|]. by apply lookup_lt_Some in Hkv.
Qed.

(** A loop whose body stores the entry of each record into the map at [q]. *)
Lemma rangeSlice_stores {A : Type} (entry : A -> Result (string * DisplayRow))
    (body : A -> Run unit) q :
  (forall x h, body x h =
     match entry x with
     | Ok (k, v) => store (Some q) k v h
     | Panic p => Panic p
     end) ->
  forall xs h rows, h !! q = Some rows ->
    rangeSlice xs body h =
      match entries entry xs with
      | Ok kvs => Ok (tt, <[q := storeAll kvs rows]> h)
      | Panic p => Panic p
      end.
Proof.
  intros Hbody. induction xs as [|x xs IH]; intros h rows Hq; simpl.
  - unfold mret, Run_ret, storeAll. simpl. by rewrite insert_id.
  - unfold mbind at 1, Run_bind. rewrite Hbody.
    destruct (entry x) as [[k v]|p]; simpl; [|done].
    rewrite Hq.
    rewrite (IH _ (<[k := v]> rows)) by apply lookup_insert_eq.
    destruct (entries entry xs) as [kvs|p]; simpl; [|done].
    by rewrite insert_insert_eq.
Qed.

(** The entries of a slice, record by record. *)
Lemma entries_Ok {A : Type} (entry : A -> Result (string * DisplayRow)) xs kvs :
  entries entry xs = Ok kvs <-> Forall2 (fun x kv => entry x = Ok kv) xs kvs.
Proof.
  revert kvs. induction xs as [|x xs IH]; intros kvs; simpl.
  - split; [intros [= <-]; constructor | by intros ->%Forall2_nil_inv_l].
  - unfold mbind, Result_bind, mret, Result_ret.
    destruct (entry x) as [kv|p] eqn:Ex.
    + destruct (entries entry xs) as [kvs'|p] eqn:Exs.
      * split.
        -- intros [= <-]. constructor; [done|]. by apply IH.
        -- intros (kv' & kvs'' & Hkv & Hrest & ->)%Forall2_cons_inv_l.
           apply IH in Hrest. congruence.
      * split; [done|].
        intros (kv' & kvs'' & Hkv & Hrest & ->)%Forall2_cons_inv_l.
        apply IH in Hrest. congruence.
    + split; [done|].
      intros (kv' & kvs'' & Hkv & Hrest & ->)%Forall2_cons_inv_l. congruence.
Qed.

Lemma entries_total {A : Type} (entry : A -> Result (string * DisplayRow)) xs :
  Forall (fun x => exists kv, entry x = Ok kv) xs -> exists kvs, entries entry xs = Ok kvs.
Proof.
  induction 1 as [|x xs [kv Hx] _ [kvs IH]]; simpl; [by eexists|].
  rewrite Hx, IH. simpl. by eexists.
Qed.

(** From the entries to the specification's reading of the map. *)
Lemma storeAll_keyedLastWins {A : Type} (id : A -> option string)
    (conv : A -> Result DisplayRow) (entry : A -> Result (string * DisplayRow)) xs kvs :
  (forall x k v, entry x = Ok (k, v) -> id x = Some k /\ conv x = Ok v) ->
  entries entry xs = Ok kvs ->
  keyedLastWins id conv xs (storeAll kvs ∅).
Proof.
  intros Hentry Hkvs%entries_Ok. split.
  - intros k. rewrite storeAll_dom, dom_empty_L, (right_id_L ∅ (∪)).
    rewrite elem_of_list_to_set.
    assert (kvs.*1 = omap id xs) as ->.
    { induction Hkvs as [|x [k' v] xs kvs Hx _ IH]; simpl; [done|].
      destruct (Hentry _ _ _ Hx) as [Hid _]. rewrite Hid. simpl. f_equal. exact IH. }
    apply list_elem_of_omap.
  - intros i x k Hi Hid Hlast.
    destruct (Forall2_lookup_l _ _ _ _ _ Hkvs Hi) as ([k' v] & Hkv & Hx).
    destruct (Hentry _ _ _ Hx) as [Hid' Hconv].
    assert (k' = k) as -> by congruence.
    exists v. split; [done|].
    apply (storeAll_last _ _ i); [done|].
    intros j [k2 v2] Hj Hkv2 ?; simpl in *; subst k2.
    destruct (Forall2_lookup_r _ _ _ _ _ Hkvs Hkv2) as (y & Hy & Hey).
    destruct (Hentry _ _ _ Hey) as [Hidy _].
    by apply (Hlast j y).
Qed.

Lemma changeEntry_Ok active change k v :
  changeEntry active change = Ok (k, v) ->
  changeLogicalResourceId change = Some k /\ CreateDisplayRowFromChange change active = Ok v.
Proof.
  unfold changeEntry, changeLogicalResourceId.
  destruct (ch_ResourceChange change) as [rc|] eqn:Hrc; simpl; [|done].
  destruct (rc_LogicalResourceId rc) as [id|]; simpl; [|done].
  destruct (CreateDisplayRowFromChange change active); simpl; [|done].
  by intros [= -> ->].
Qed.

Lemma eventEntry_Ok event k v :
  eventEntry event = Ok (k, v) ->
  ev_LogicalResourceId event = Some k /\ CreateDisplayRowFromEvent event = Ok v.
Proof.
  unfold eventEntry.
  destruct (ev_LogicalResourceId event) as [id|]; simpl; [|done].
  destruct (CreateDisplayRowFromEvent event); simpl; [|done].
  by intros [= -> ->].
Qed.

Lemma resourceEntry_Ok resource k v :
  resourceEntry resource = Ok (k, v) ->
  rs_LogicalResourceId resource = Some k /\ CreateDisplayRowFromResource resource = Ok v.
Proof.
  unfold resourceEntry.
  destruct (rs_LogicalResourceId resource) as [id|]; simpl; [|done].
  destruct (CreateDisplayRowFromResource resource); simpl; [|done].
  by intros [= -> ->].
Qed.

(** Each builder, unfolded: a new map, then the entries of the slice stored
    in order. *)
Lemma ChangeMap_unfold changes active h :
  ChangeMap changes active h =
    match entries (changeEntry active) changes with
    | Ok kvs => Ok (Some (fresh (dom h)), <[fresh (dom h) := storeAll kvs ∅]> h)
    | Panic p => Panic p
    end.
Proof.
  unfold ChangeMap. unfold mbind at 1, Run_bind.
  destruct (make_fresh h) as [-> Hfresh].
  unfold mbind at 1, Run_bind.
  rewrite (rangeSlice_stores (changeEntry active) _ (fresh (dom h))) with (rows := ∅).
  - destruct (entries (changeEntry active) changes); simpl; [|done].
    unfold mret, Run_ret. by rewrite insert_insert_eq.
  - intros x h0. unfold changeEntry, liftResult, mbind, Run_bind, Result_bind, mret, Result_ret.
    destruct (deref (ch_ResourceChange x)) as [rc|]; [|done].
    destruct (deref (rc_LogicalResourceId rc)); [|done].
    by destruct (CreateDisplayRowFromChange x active).
  - apply lookup_insert_eq.
Qed.

Lemma EventMap_unfold events h :
  EventMap events h =
    match entries eventEntry events with
    | Ok kvs => Ok (Some (fresh (dom h)), <[fresh (dom h) := storeAll kvs ∅]> h)
    | Panic p => Panic p
    end.
Proof.
  unfold EventMap. unfold mbind at 1, Run_bind.
  destruct (make_fresh h) as [-> Hfresh].
  unfold mbind at 1, Run_bind.
  rewrite (rangeSlice_stores eventEntry _ (fresh (dom h))) with (rows := ∅).
  - destruct (entries eventEntry events); simpl; [|done].
    unfold mret, Run_ret. by rewrite insert_insert_eq.
  - intros x h0. unfold eventEntry, liftResult, mbind, Run_bind, Result_bind, mret, Result_ret.
    destruct (deref (ev_LogicalResourceId x)); [|done].
    by destruct (CreateDisplayRowFromEvent x).
  - apply lookup_insert_eq.
Qed.

Lemma ResourceMap_unfold resources h :
  ResourceMap resources h =
    match entries resourceEntry resources with
    | Ok kvs => Ok (Some (fresh (dom h)), <[fresh (dom h) := storeAll kvs ∅]> h)
    | Panic p => Panic p
    end.
Proof.
  unfold ResourceMap. unfold mbind at 1, Run_bind.
  destruct (make_fresh h) as [-> Hfresh].
  unfold mbind at 1, Run_bind.
  rewrite (rangeSlice_stores resourceEntry _ (fresh (dom h))) with (rows := ∅).
  - destruct (entries resourceEntry resources); simpl; [|done].
    unfold mret, Run_ret. by rewrite insert_insert_eq.
  - intros x h0. unfold resourceEntry, liftResult, mbind, Run_bind, Result_bind, mret, Result_ret.
    destruct (deref (rs_LogicalResourceId x)); [|done].
    by destruct (CreateDisplayRowFromResource x).
  - apply lookup_insert_eq.
Qed.

End RowMaps.

Section RowMapSpec.

Implicit Types (h : heap).

Lemma ChangeMap_keyed changes active h r :
  ChangeMap changes active h = Ok r ->
  returnsNewMap h (Ok r)
    (keyedLastWins changeLogicalResourceId
       (fun change => CreateDisplayRowFromChange change active) changes).
Proof.
  rewrite ChangeMap_unfold.
  destruct (entries (changeEntry active) changes) as [kvs|p] eqn:E; [|done].
  intros [= <-]. exists (fresh (dom h)), (storeAll kvs ∅).
  split; [done|]. split; [apply make_fresh|].
  apply (storeAll_keyedLastWins _ _ (changeEntry active)); [|done].
  intros x k v. apply changeEntry_Ok.
Qed.

Lemma EventMap_keyed events h r :
  EventMap events h = Ok r ->
  returnsNewMap h (Ok r)
    (keyedLastWins ev_LogicalResourceId CreateDisplayRowFromEvent events).
Proof.
  rewrite EventMap_unfold.
  destruct (entries eventEntry events) as [kvs|p] eqn:E; [|done].
  intros [= <-]. exists (fresh (dom h)), (storeAll kvs ∅).
  split; [done|]. split; [apply make_fresh|].
  apply (storeAll_keyedLastWins _ _ eventEntry); [|done].
  intros x k v. apply eventEntry_Ok.
Qed.

Lemma ResourceMap_keyed resources h r :
  ResourceMap resources h = Ok r ->
  returnsNewMap h (Ok r)
    (keyedLastWins rs_LogicalResourceId CreateDisplayRowFromResource resources).
Proof.
  rewrite ResourceMap_unfold.
  destruct (entries resourceEntry resources) as [kvs|p] eqn:E; [|done].
  intros [= <-]. exists (fresh (dom h)), (storeAll kvs ∅).
  split; [done|]. split; [apply make_fresh|].
  apply (storeAll_keyedLastWins _ _ resourceEntry); [|done].
  intros x k v. apply resourceEntry_Ok.
Qed.

Lemma changeEntry_total active change :
  changeComplete change -> exists kv, changeEntry active change = Ok kv.
Proof.
  unfold changeComplete, changeEntry, changeLogicalResourceId, changeResourceType,
    CreateDisplayRowFromChange.
  destruct (ch_ResourceChange change) as [rc|]; simpl; [|by intros [[] _]].
  intros [[id ->] [ty ->]]. simpl. by eexists.
Qed.

Lemma eventEntry_total event :
  eventComplete event -> exists kv, eventEntry event = Ok kv.
Proof.
  unfold eventComplete, eventEntry, CreateDisplayRowFromEvent.
  intros ([id ->] & [ty ->] & [ts ->]). simpl. by eexists.
Qed.

Lemma resourceEntry_total resource :
  resourceComplete resource -> exists kv, resourceEntry resource = Ok kv.
Proof.
  unfold resourceComplete, resourceEntry, CreateDisplayRowFromResource.
  intros ([id ->] & [ty ->]). simpl. by eexists.
Qed.

Lemma ChangeMap_total changes active h :
  Forall changeComplete changes -> exists r, ChangeMap changes active h = Ok r.
Proof.
  intros Hall. rewrite ChangeMap_unfold.
  destruct (entries_total (changeEntry active) changes) as [kvs ->]; [|by eexists].
  eapply Forall_impl; [exact Hall|]. intros x. apply changeEntry_total.
Qed.

Lemma EventMap_total events h :
  Forall eventComplete events -> exists r, EventMap events h = Ok r.
Proof.
  intros Hall. rewrite EventMap_unfold.
  destruct (entries_total eventEntry events) as [kvs ->]; [|by eexists].
  eapply Forall_impl; [exact Hall|]. intros x. apply eventEntry_total.
Qed.

Lemma ResourceMap_total resources h :
  Forall resourceComplete resources -> exists r, ResourceMap resources h = Ok r.
Proof.
  intros Hall. rewrite ResourceMap_unfold.
  destruct (entries_total resourceEntry resources) as [kvs ->]; [|by eexists].
  eapply Forall_impl; [exact Hall|]. intros x. apply resourceEntry_total.
Qed.

(** A record without a required sub-field is not skipped: the builder's
    loop ends in the panic of its conversion, and no map is returned. *)
Lemma entries_panic {A : Type} (entry : A -> Result (string * DisplayRow)) xs :
  (forall x p, entry x = Panic p -> p = NilDereference) ->
  Exists (fun x => exists p, entry x = Panic p) xs ->
  entries entry xs = Panic NilDereference.
Proof.
  intros Hnil. induction xs as [|x xs IH]; intros Hex; [by apply Exists_nil in Hex|].
  simpl. unfold mbind, Result_bind.
  destruct (entry x) as [kv|p] eqn:Ex; [|by rewrite (Hnil _ _ Ex)].
  apply Exists_cons in Hex as [[p Hp]|Hex]; [congruence|].
  by rewrite IH.
Qed.

Lemma eventEntry_panic event :
  ~ eventComplete event -> eventEntry event = Panic NilDereference.
Proof.
  unfold eventComplete, eventEntry, CreateDisplayRowFromEvent. intros Hinc.
  destruct (ev_LogicalResourceId event) as [id|]; simpl; [|done].
  destruct (ev_ResourceType event) as [ty|]; simpl; [|done].
  destruct (ev_Timestamp event) as [ts|]; simpl; [|done].
  destruct Hinc. by repeat split.
Qed.

Lemma eventEntry_panic_nil event p :
  eventEntry event = Panic p -> p = NilDereference.
Proof.
  unfold eventEntry, CreateDisplayRowFromEvent.
  destruct (ev_LogicalResourceId event) as [id|]; simpl; [|congruence].
  destruct (ev_ResourceType event) as [ty|]; simpl; [|congruence].
  destruct (ev_Timestamp event) as [ts|]; simpl; [done|congruence].
Qed.

Lemma EventMap_panics_on_incomplete_event events h :
  Exists (fun event => ~ eventComplete event) events ->
  EventMap events h = Panic NilDereference.
Proof.
  intros Hex. rewrite EventMap_unfold, entries_panic; [done| |].
  - apply eventEntry_panic_nil.
  - eapply Exists_impl; [exact Hex|]. intros event Hinc.
    exists NilDereference. by apply eventEntry_panic.
Qed.

Example EventMap_event_without_id :
  EventMap [sampleEvent; eventWithoutId; laterEvent] ∅ = Panic NilDereference.
Proof. reflexivity. Qed.

End RowMapSpec.

(** C5: [ChangeMap], [EventMap] and [ResourceMap] return a map for every
    input whose records carry their required sub-fields, and whenever one of
    them returns, the result is a new map whose key set is exactly the set of
    logical ids of the input and in which the row under an id is the
    conversion of the last record with that id, in input order. *)
Theorem row_maps_keyed_last_write_wins :
  (forall changes active (h : heap),
      (Forall changeComplete changes -> exists r, ChangeMap changes active h = Ok r)
      /\ (forall r, ChangeMap changes active h = Ok r ->
            returnsNewMap h (Ok r)
              (keyedLastWins changeLogicalResourceId
                 (fun change => CreateDisplayRowFromChange change active) changes)))
  /\ (forall events (h : heap),
      (Forall eventComplete events -> exists r, EventMap events h = Ok r)
      /\ (forall r, EventMap events h = Ok r ->
            returnsNewMap h (Ok r)
              (keyedLastWins ev_LogicalResourceId CreateDisplayRowFromEvent events)))
  /\ (forall resources (h : heap),
      (Forall resourceComplete resources -> exists r, ResourceMap resources h = Ok r)
      /\ (forall r, ResourceMap resources h = Ok r ->
            returnsNewMap h (Ok r)
              (keyedLastWins rs_LogicalResourceId CreateDisplayRowFromResource
                 resources))).
Proof.
  split; [|split].
  - intros changes active h. split.
    + apply ChangeMap_total.
    + intros r. apply ChangeMap_keyed.
  - intros events h. split.
    + apply EventMap_total.
    + intros r. apply EventMap_keyed.
  - intros resources h. split.
    + apply ResourceMap_total.
    + intros r. apply ResourceMap_keyed.
Qed.

(** Two events for "Bucket": the map has the one key, and the row of the
    event fetched last. *)
Lemma row_maps_keyed_last_write_wins_witness :
  exists r, EventMap [sampleEvent; laterEvent] ∅ = Ok r
  /\ returnsNewMap ∅ (Ok r)
       (keyedLastWins ev_LogicalResourceId CreateDisplayRowFromEvent
          [sampleEvent; laterEvent]).
Proof.
  destruct (proj1 (proj2 row_maps_keyed_last_write_wins) [sampleEvent; laterEvent] ∅)
    as [total keyed].
  destruct total as [r Hr].
  - repeat constructor; by eexists.
  - exists r. split; [exact Hr|]. apply keyed. exact Hr.
Defined.

Example EventMap_last_fetched_wins :
  EventMap [sampleEvent; laterEvent] ∅
  = Ok (Some 0, {[ 0 := {[ "Bucket" := {|
      LogicalResourceID := "Bucket";
      ResourceType := "AWS::S3::Bucket";
      Status := ResourceStatusCreateInProgress;
      Timestamp := 1599999999%Z;
      StatusReason := "";
      Replacement := "";
      Action := "";
      Source := DisplayRowSourceEvent;
      Active := false |} ]} ]}).
Proof. vm_compute. reflexivity. Qed.

(** The specification's example: an Add for "A" and a Remove for "B" give
    a map of two rows, both active, both from the change set. *)
Example ChangeMap_add_remove :
  exists q rows, ChangeMap sampleChanges true ∅ = Ok (Some q, {[ q := rows ]})
  /\ size rows = 2
  /\ (Active <$> rows !! "A") = Some true /\ (Active <$> rows !! "B") = Some true
  /\ (Source <$> rows !! "A") = Some DisplayRowSourceChangeSet
  /\ (Source <$> rows !! "B") = Some DisplayRowSourceChangeSet
  /\ (Action <$> rows !! "A") = Some ChangeActionAdd
  /\ (Action <$> rows !! "B") = Some ChangeActionRemove.
Proof. exists 0. eexists. split; [vm_compute; reflexivity|]. vm_compute. tauto. Qed.

(** ** Activation *)

Section Activation.

Implicit Types (h : heap) (rows acc : gmap string DisplayRow)
  (kvs : list (string * DisplayRow)) (keys : list string).

Lemma storeAll_lookup_other kvs rows k :
  k ∉ kvs.*1 -> storeAll kvs rows !! k = rows !! k.
Proof.
  revert rows. induction kvs as [|[k' v'] kvs IH]; intros rows Hk; [done|].
  rewrite storeAll_cons. simpl in Hk. apply not_elem_of_cons in Hk as [Hne Hk].
  rewrite IH by done. by rewrite lookup_insert_ne.
Qed.

Lemma storeAll_lookup_once kvs rows k v :
  NoDup kvs.*1 -> (k, v) ∈ kvs -> storeAll kvs rows !! k = Some v.
Proof.
  revert rows. induction kvs as [|[k' v'] kvs IH]; intros rows Hnd Hin.
  - by apply elem_of_nil in Hin.
  - rewrite storeAll_cons. simpl in Hnd. apply NoDup_cons in Hnd as [Hfresh Hnd].
    apply elem_of_cons in Hin as [[= -> ->]|Hin].
    + rewrite storeAll_lookup_other by done. apply lookup_insert_eq.
    + by apply IH.
Qed.

Lemma activatedEntries_elem rows keys k v :
  (k, v) ∈ activatedEntries rows keys
  <-> k ∈ keys /\ exists event, rows !! k = Some event /\ v = setActive true event.
Proof.
  unfold activatedEntries. rewrite list_elem_of_omap. split.
  - intros (k' & Hk' & E). destruct (rows !! k') as [event|] eqn:Hev; [|done].
    simpl in E. injection E as <- <-. eauto.
  - intros (Hk & event & Hev & ->). exists k. split; [done|]. by rewrite Hev.
Qed.

Lemma activatedEntries_keys rows keys :
  Forall (fun k => is_Some (rows !! k)) keys -> (activatedEntries rows keys).*1 = keys.
Proof.
  unfold activatedEntries. induction 1 as [|k keys [event Hev] _ IH]; [done|].
  simpl. rewrite Hev. simpl. f_equal. exact IH.
Qed.

(** Visiting every key of [rows] once stores the activated copy of [rows]. *)
Lemma storeAll_activatedEntries rows keys :
  keys ≡ₚ (map_to_list rows).*1 ->
  storeAll (activatedEntries rows keys) ∅ = setActive true <$> rows.
Proof.
  intros Hperm.
  assert (forall k, k ∈ keys <-> is_Some (rows !! k)) as Hkeys.
  { intros k. rewrite Hperm, list_elem_of_fmap. split.
    - intros ([k' v] & -> & Hin). apply elem_of_map_to_list in Hin. by eexists.
    - intros [v Hv]. exists (k, v). split; [done|]. by apply elem_of_map_to_list. }
  assert (NoDup keys) as Hnd.
  { rewrite Hperm. apply NoDup_fst_map_to_list. }
  assert ((activatedEntries rows keys).*1 = keys) as Hfst.
  { apply activatedEntries_keys, Forall_forall. intros k. apply Hkeys. }
  apply map_eq. intros k. rewrite lookup_fmap.
  destruct (rows !! k) as [event|] eqn:Hev; simpl.
  - apply storeAll_lookup_once; [by rewrite Hfst|].
    apply activatedEntries_elem. split; [|by eauto].
    apply Hkeys. by rewrite Hev.
  - rewrite storeAll_lookup_other; [done|].
    rewrite Hfst. intros Hin%Hkeys. rewrite Hev in Hin. by destruct Hin.
Qed.

(** The loop of [ActivateDisplayRows]: it reads the map [displayRows] and
    writes the map at [q], which is another map. *)
Lemma activation_loop (displayRows : mapref) q rows keys h acc :
  displayRows <> Some q ->
  contents displayRows h = Some rows ->
  h !! q = Some acc ->
  rangeSlice keys (fun logicalID =>
    entry ← rangeValue displayRows logicalID;
    match entry with
    | Some event =>
        let event := setActive true event in
        store (Some q) logicalID event
    | None => mret tt
    end) h
  = Ok (tt, <[q := storeAll (activatedEntries rows keys) acc]> h).
Proof.
  intros Hq. revert h acc.
  induction keys as [|k keys IH]; intros h acc Hrows Hacc; simpl.
  - unfold mret, Run_ret, storeAll. simpl. by rewrite insert_id.
  - unfold mbind at 1, Run_bind. unfold mbind at 1, Run_bind.
    unfold rangeValue. rewrite Hrows.
    unfold activatedEntries. simpl.
    destruct (rows !! k) as [event|] eqn:Hev; simpl.
    + rewrite Hacc.
      rewrite (IH _ (<[k := setActive true event]> acc)).
      * by rewrite insert_insert_eq.
      * destruct displayRows as [l|]; simpl in *; [|done].
        rewrite lookup_insert_ne; [done|congruence].
      * apply lookup_insert_eq.
    + unfold mret at 1, Run_ret. by apply IH.
Qed.

Variable order : gmap string DisplayRow -> list string.
Hypothesis order_visits_each_key_once :
  forall rows, order rows ≡ₚ (map_to_list rows).*1.

Lemma ActivateDisplayRows_unfold (displayRows : mapref) h rows :
  contents displayRows h = Some rows ->
  ActivateDisplayRows order displayRows h
  = Ok (Some (fresh (dom h)), <[fresh (dom h) := setActive true <$> rows]> h).
Proof.
  intros Hrows. unfold ActivateDisplayRows.
  unfold mbind at 1, Run_bind.
  destruct (make_fresh h) as [-> Hfresh].
  assert (displayRows <> Some (fresh (dom h))) as Hne.
  { intros ->. simpl in Hrows. congruence. }
  assert (contents displayRows (<[fresh (dom h) := ∅]> h) = Some rows) as Hrows'.
  { destruct displayRows as [l|]; simpl in *; [|done].
    rewrite lookup_insert_ne; [done|congruence]. }
  unfold mbind at 1, Run_bind. unfold rangeKeys. rewrite Hrows'.
  unfold mbind at 1, Run_bind.
  rewrite (activation_loop displayRows (fresh (dom h)) rows _ _ ∅ Hne Hrows')
    by apply lookup_insert_eq.
  unfold mret, Run_ret. rewrite insert_insert_eq.
  by rewrite storeAll_activatedEntries.
Qed.

(** C4: [ActivateDisplayRows] returns a new map with the keys of its
    argument and every row active, each row being the argument's row with
    the flag set; the argument map and every other map of the heap are as
    they were before the call, so each of its rows has the [Active] value it
    had. *)
Theorem ActivateDisplayRows_copies (displayRows : mapref) (h : heap)
    (m : gmap string DisplayRow) :
  contents displayRows h = Some m ->
  exists q h' m',
    ActivateDisplayRows order displayRows h = Ok (Some q, h')
    /\ h !! q = None
    /\ h' !! q = Some m'
    /\ dom m' = dom m
    /\ (forall k row, m' !! k = Some row -> Active row = true)
    /\ (forall k, m' !! k = setActive true <$> m !! k)
    /\ contents displayRows h' = Some m
    /\ (forall l, l <> q -> h' !! l = h !! l)
    /\ (forall k, Active <$> (contents displayRows h' ≫= (.!! k)) = Active <$> m !! k).
Proof.
  intros Hm.
  assert (h !! fresh (dom h) = None) as Hfresh by apply make_fresh.
  assert (contents displayRows (<[fresh (dom h) := setActive true <$> m]> h) = Some m)
    as Hsame.
  { destruct displayRows as [l|]; simpl in *; [|done].
    rewrite lookup_insert_ne; [done|congruence]. }
  exists (fresh (dom h)), (<[fresh (dom h) := setActive true <$> m]> h),
    (setActive true <$> m).
  split; [by apply ActivateDisplayRows_unfold|].
  split; [done|].
  split; [apply lookup_insert_eq|].
  split; [apply dom_fmap_L|].
  split.
  { intros k row. rewrite lookup_fmap.
    destruct (m !! k); simpl; [|done]. by intros [= <-]. }
  split; [intros k; apply lookup_fmap|].
  split; [done|].
  split; [intros l Hl; by rewrite lookup_insert_ne|].
  intros k. by rewrite Hsame.
Qed.

End Activation.

(** The map at address 0 holds one inactive row; after the call it still
    does, and the new map holds the row, active. *)
Lemma ActivateDisplayRows_copies_witness :
  exists q h' m',
    ActivateDisplayRows listingOrder (Some 0) sampleHeap = Ok (Some q, h')
    /\ sampleHeap !! q = None
    /\ h' !! q = Some m'
    /\ dom m' = dom ({[ "Bucket" := inactiveRow ]} : gmap string DisplayRow)
    /\ (forall k row, m' !! k = Some row -> Active row = true)
    /\ (forall k, m' !! k
          = setActive true <$> ({[ "Bucket" := inactiveRow ]} : gmap string DisplayRow) !! k)
    /\ contents (Some 0) h' = Some {[ "Bucket" := inactiveRow ]}
    /\ (forall l, l <> q -> h' !! l = sampleHeap !! l)
    /\ (forall k, Active <$> (contents (Some 0) h' ≫= (.!! k))
          = Active <$> ({[ "Bucket" := inactiveRow ]} : gmap string DisplayRow) !! k).
Proof.
  apply (ActivateDisplayRows_copies listingOrder).
  - intros rows. reflexivity.
  - reflexivity.
Defined.

Example ActivateDisplayRows_sample :
  ActivateDisplayRows listingOrder (Some 0) sampleHeap
  = Ok (Some 1, {[ 0 := {[ "Bucket" := inactiveRow ]};
                   1 := {[ "Bucket" := setActive true inactiveRow ]} ]}).
Proof. vm_compute. reflexivity. Qed.

Example ActivateDisplayRows_nil_map :
  ActivateDisplayRows listingOrder None ∅ = Ok (Some 0, {[ 0 := ∅ ]}).
Proof. vm_compute. reflexivity. Qed.

(** ** Pagination collector *)

Section Pagination.

Implicit Types (pages : list ListStackResourcesOutput) (outcomes : list fetch)
  (resources : list StackResourceSummary).

(** One turn of the loop. *)
Lemma GetResourcesLoop_step paginator resources :
  GetResourcesLoop paginator resources =
    match Next paginator with
    | (true, paginator') =>
        match deref (CurrentPage paginator') with
        | Ok page =>
            GetResourcesLoop paginator' (resources ++ out_StackResourceSummaries page)%list
        | Panic p => Panic p
        end
    | (false, paginator') => Ok (resources, paginator')
    end.
Proof.
  simp GetResourcesLoop.
  destruct (inspect (Next paginator)) as [[[] paginator'] E]; simpl.
  all: rewrite E; reflexivity.
Qed.

Lemma summariesOf_cons page pages :
  summariesOf (page :: pages) = (out_StackResourceSummaries page ++ summariesOf pages)%list.
Proof. reflexivity. Qed.

Lemma pageAfter_cons cur page pages :
  pageAfter cur (page :: pages) = pageAfter (Some page) pages.
Proof.
  unfold pageAfter. destruct pages as [|page' pages]; [done|].
  change (last (page :: page' :: pages)) with (last (page' :: pages)).
  destruct (last (page' :: pages)) eqn:E; [done|].
  by apply last_None in E.
Qed.

(** The pages that arrive are accumulated in order; the loop then goes on
    with the outcomes that follow them. *)
Lemma GetResourcesLoop_fetched pages outcomes cur e resources :
  GetResourcesLoop
    {| pending := (Fetched <$> pages) ++ outcomes; curPage := cur; err := e |} resources
  = GetResourcesLoop
      {| pending := outcomes; curPage := pageAfter cur pages; err := e |}
      (resources ++ summariesOf pages)%list.
Proof.
  revert cur resources. induction pages as [|page pages IH]; intros cur resources.
  - unfold summariesOf, pageAfter. simpl. by rewrite app_nil_r.
  - rewrite GetResourcesLoop_step. unfold Next. simpl.
    rewrite IH, summariesOf_cons, pageAfter_cons. by rewrite app_assoc.
Qed.

(** A listing that is fetched whole. *)
Lemma GetResourcesFromPaginator_all pages cur e :
  GetResourcesFromPaginator
    {| pending := Fetched <$> pages; curPage := cur; err := e |}
  = Ok (summariesOf pages,
        {| pending := []; curPage := pageAfter cur pages; err := e |}).
Proof.
  unfold GetResourcesFromPaginator.
  rewrite <- (app_nil_r (Fetched <$> pages)), GetResourcesLoop_fetched.
  by rewrite GetResourcesLoop_step.
Qed.

(** A listing whose request after [pages] fails. *)
Lemma GetResourcesFromPaginator_failure pages failure outcomes cur e :
  GetResourcesFromPaginator
    {| pending := (Fetched <$> pages) ++ FetchFailed failure :: outcomes;
       curPage := cur; err := e |}
  = Ok (summariesOf pages,
        {| pending := outcomes; curPage := pageAfter cur pages; err := Some failure |}).
Proof.
  unfold GetResourcesFromPaginator.
  rewrite GetResourcesLoop_fetched. by rewrite GetResourcesLoop_step.
Qed.

End Pagination.

(** C1, as the code has it: when the request that follows the pages
    [pages] fails, [GetResourcesFromPaginator] makes no further request
    (the outcomes after the failure stay pending: no retry), and returns, as
    an ordinary result, the summaries of [pages]; the failure is kept in the
    paginator, where [Err] shows it, and is not part of what the function
    returns. *)
Theorem GetResourcesFromPaginator_stops_at_failure
    (pages : list ListStackResourcesOutput) (failure : error)
    (outcomes : list fetch) (cur : option ListStackResourcesOutput)
    (e : option error) :
  exists paginator',
    GetResourcesFromPaginator
      {| pending := (Fetched <$> pages) ++ FetchFailed failure :: outcomes;
         curPage := cur; err := e |}
    = Ok (summariesOf pages, paginator')
    /\ Err paginator' = Some failure
    /\ pending paginator' = outcomes.
Proof.
  eexists. split; [apply GetResourcesFromPaginator_failure|]. by split.
Qed.

(** C1 as stated fails: the second request of [failingPaginator] fails, and
    the function returns the first page's summaries as a result, the same
    slice it returns for a stack whose whole listing is that page. *)
Lemma GetResourcesFromPaginator_returns_partial_listing :
  Next (snd (Next failingPaginator))
    = (false, {| pending := [Fetched secondPage]; curPage := Some firstPage;
                 err := Some throttled |})
  /\ GetResourcesFromPaginator failingPaginator
     = Ok ([sampleResource],
           {| pending := [Fetched secondPage]; curPage := Some firstPage;
              err := Some throttled |})
  /\ GetResourcesFromPaginator onePagePaginator
     = Ok ([sampleResource],
           {| pending := []; curPage := Some firstPage; err := None |}).
Proof.
  split; [reflexivity|]. split.
  - apply (GetResourcesFromPaginator_failure [firstPage] throttled [Fetched secondPage]).
  - apply (GetResourcesFromPaginator_all [firstPage]).
Qed.

(** The specification's example: pages of sizes 3, 0, 5 and 2 give ten
    summaries, in page order. *)
Example GetResourcesFromPaginator_four_pages :
  exists resources paginator',
    GetResourcesFromPaginator (newPaginator (Fetched <$> (pageOfSize <$> [3; 0; 5; 2])))
    = Ok (resources, paginator')
    /\ length resources = 10
    /\ resources = summariesOf (pageOfSize <$> [3; 0; 5; 2])
    /\ Err paginator' = None.
Proof.
  do 2 eexists. split; [apply GetResourcesFromPaginator_all|]. by repeat split.
Qed.

(** ** Tag and parameter loaders *)

Section Loaders.

Variable c : colors.
Variable fs : filesystem.
Variable unmarshalTags : Unmarshal Tag.
Variable unmarshalParameters : Unmarshal StackParameter.

Lemma ReadFile_missing location :
  fs !! location = None ->
  ReadFile fs location
  = ("", Some (PathError "open" location "no such file or directory")).
Proof. unfold ReadFile. by intros ->. Qed.

Lemma ReadFile_readable location data :
  fs !! location = Some (Readable data) -> ReadFile fs location = (data, None).
Proof. unfold ReadFile. by intros ->. Qed.

Lemma GetTags_read_failure location data e :
  ReadFile fs location = (data, Some e) ->
  GetTags c fs unmarshalTags location = ([], None).
Proof. unfold GetTags. by intros ->. Qed.

Lemma GetParameters_read_failure location data e :
  ReadFile fs location = (data, Some e) ->
  GetParameters c fs unmarshalParameters location = ([], None).
Proof. unfold GetParameters. by intros ->. Qed.

Lemma GetTags_decode_failure location data container e :
  ReadFile fs location = (data, None) ->
  unmarshalTags data [] = (container, Some e) ->
  GetTags c fs unmarshalTags location
  = ([], Some (errorString (Sprintf_s_nl_s
       (colors_Error c "Unable to load tags. tags must be valid JSON and only of type string")
       (colors_Docs c "https://docs.aws.amazon.com/AWSCloudFormation/latest/UserGuide/aws-properties-resource-tags.html")))).
Proof. unfold GetTags. by intros -> ->. Qed.

Lemma GetParameters_decode_failure location data container e :
  ReadFile fs location = (data, None) ->
  unmarshalParameters data [] = (container, Some e) ->
  GetParameters c fs unmarshalParameters location
  = ([], Some (errorString (Sprintf_s_nl_s
       (colors_Error c "Unable to load parameters. Parameters must be valid JSON and only of type string")
       (colors_Docs c "https://aws.amazon.com/blogs/devops/passing-parameters-to-cloudformation-stacks-with-the-aws-cli-and-powershell/")))).
Proof. unfold GetParameters. by intros -> ->. Qed.

(** C2: for a location that does not exist, [GetTags] and [GetParameters]
    return the empty slice and no error.  For a file that is read and that
    the JSON decoder rejects, they return an error made with [errors.New]
    from the loader's own message (the coloured explanation and the link to
    the documentation): it is not the decoder's error and does not depend
    on it. *)
Theorem loaders_missing_file_and_malformed_json (location : string) :
  (fs !! location = None ->
     GetTags c fs unmarshalTags location = ([], None)
     /\ GetParameters c fs unmarshalParameters location = ([], None))
  /\ (forall data container e,
       fs !! location = Some (Readable data) ->
       unmarshalTags data [] = (container, Some e) ->
       exists message,
         GetTags c fs unmarshalTags location = ([], Some (errorString message))
         /\ message = Sprintf_s_nl_s
              (colors_Error c "Unable to load tags. tags must be valid JSON and only of type string")
              (colors_Docs c "https://docs.aws.amazon.com/AWSCloudFormation/latest/UserGuide/aws-properties-resource-tags.html")
         /\ errorString message <> JSONError e)
  /\ (forall data container e,
       fs !! location = Some (Readable data) ->
       unmarshalParameters data [] = (container, Some e) ->
       exists message,
         GetParameters c fs unmarshalParameters location = ([], Some (errorString message))
         /\ message = Sprintf_s_nl_s
              (colors_Error c "Unable to load parameters. Parameters must be valid JSON and only of type string")
              (colors_Docs c "https://aws.amazon.com/blogs/devops/passing-parameters-to-cloudformation-stacks-with-the-aws-cli-and-powershell/")
         /\ errorString message <> JSONError e).
Proof.
  split; [|split].
  - intros Hmissing%ReadFile_missing. split.
    + by eapply GetTags_read_failure.
    + by eapply GetParameters_read_failure.
  - intros data container e Hfile%ReadFile_readable Hdecode.
    eexists. split; [by eapply GetTags_decode_failure|]. by split.
  - intros data container e Hfile%ReadFile_readable Hdecode.
    eexists. split; [by eapply GetParameters_decode_failure|]. by split.
Qed.

(** C10: whatever error [ioutil.ReadFile] reports, and not only that the
    file does not exist, [GetTags] and [GetParameters] return the empty
    slice and no error. *)
Theorem loaders_ignore_every_read_error (location : string) (e : error) :
  snd (ReadFile fs location) = Some e ->
  GetTags c fs unmarshalTags location = ([], None)
  /\ GetParameters c fs unmarshalParameters location = ([], None).
Proof.
  destruct (ReadFile fs location) as [data err0] eqn:Hread. simpl. intros ->. split.
  - by eapply GetTags_read_failure.
  - by eapply GetParameters_read_failure.
Qed.

End Loaders.

(** No file at "absent.json"; a truncated array in "tags.json". *)
Lemma loaders_missing_file_and_malformed_json_witness :
  (GetTags plainColors sampleFiles (emptyArrayDecoder Tag) "absent.json" = ([], None)
   /\ GetParameters plainColors sampleFiles (emptyArrayDecoder StackParameter) "absent.json"
      = ([], None))
  /\ exists message,
      GetTags plainColors sampleFiles (emptyArrayDecoder Tag) "tags.json"
      = ([], Some (errorString message))
      /\ message = Sprintf_s_nl_s
           "Unable to load tags. tags must be valid JSON and only of type string"
           "https://docs.aws.amazon.com/AWSCloudFormation/latest/UserGuide/aws-properties-resource-tags.html"
      /\ errorString message
         <> JSONError (SyntaxError "unexpected end of JSON input" 1).
Proof.
  split.
  - apply (loaders_missing_file_and_malformed_json plainColors sampleFiles
             (emptyArrayDecoder Tag) (emptyArrayDecoder StackParameter) "absent.json").
    reflexivity.
  - apply (proj1 (proj2 (loaders_missing_file_and_malformed_json plainColors sampleFiles
             (emptyArrayDecoder Tag) (emptyArrayDecoder StackParameter) "tags.json"))
             "[{" []).
    + reflexivity.
    + reflexivity.
Defined.

(** "secret.json" exists and cannot be opened. *)
Lemma loaders_ignore_every_read_error_witness :
  sampleFiles !! "secret.json" = Some (Unreadable "permission denied")
  /\ GetTags plainColors sampleFiles (emptyArrayDecoder Tag) "secret.json" = ([], None)
  /\ GetParameters plainColors sampleFiles (emptyArrayDecoder StackParameter) "secret.json"
     = ([], None).
Proof.
  split; [reflexivity|].
  apply (loaders_ignore_every_read_error plainColors sampleFiles
           (emptyArrayDecoder Tag) (emptyArrayDecoder StackParameter) "secret.json"
           (PathError "open" "secret.json" "permission denied")).
  reflexivity.
Defined.

Example GetTags_empty_array :
  GetTags plainColors sampleFiles (emptyArrayDecoder Tag) "empty.json" = ([], None).
Proof. reflexivity. Qed.

(** * Further properties *)

(** ** Row maps, entry by entry *)

Section RowMapFacts.

Implicit Types (h : heap) (rows : gmap string DisplayRow)
  (kvs : list (string * DisplayRow)).

Lemma storeAll_app kvs1 kvs2 rows :
  storeAll (kvs1 ++ kvs2) rows = storeAll kvs2 (storeAll kvs1 rows).
Proof. unfold storeAll. apply foldl_app. Qed.

Lemma storeAll_union kvs rows : storeAll kvs rows = storeAll kvs ∅ ∪ rows.
Proof.
  induction kvs as [|[k v] kvs IH] using rev_ind.
  - unfold storeAll. simpl. by rewrite (left_id_L ∅ (∪)).
  - by rewrite !storeAll_snoc, IH, insert_union_l.
Qed.

Lemma storeAll_fmap (f : DisplayRow -> DisplayRow) kvs rows :
  f <$> storeAll kvs rows = storeAll (prod_map id f <$> kvs) (f <$> rows).
Proof.
  revert rows. induction kvs as [|[k v] kvs IH]; intros rows; [done|].
  rewrite storeAll_cons, IH, fmap_insert. reflexivity.
Qed.

(** A row of the map was stored by some entry. *)
Lemma storeAll_lookup_Some kvs rows k v :
  storeAll kvs rows !! k = Some v -> (k, v) ∈ kvs \/ rows !! k = Some v.
Proof.
  induction kvs as [|[k' v'] kvs IH] using rev_ind; [by right|].
  rewrite storeAll_snoc. destruct (decide (k' = k)) as [->|Hne].
  - rewrite lookup_insert_eq. intros [= ->]. left. apply elem_of_app. right.
    by apply list_elem_of_singleton.
  - rewrite lookup_insert_ne by done. intros [Hin|Hrows]%IH; [|by right].
    left. apply elem_of_app. by left.
Qed.

Lemma storeAll_size_le kvs : size (storeAll kvs ∅) <= length kvs.
Proof.
  induction kvs as [|[k v] kvs IH] using rev_ind.
  { unfold storeAll. simpl. by rewrite map_size_empty. }
  rewrite storeAll_snoc, map_size_insert, length_app. simpl.
  destruct (storeAll kvs ∅ !! k); unfold id; lia.
Qed.

Lemma storeAll_size_NoDup kvs :
  size (storeAll kvs ∅) = length kvs <-> NoDup kvs.*1.
Proof.
  induction kvs as [|[k v] kvs IH] using rev_ind.
  - unfold storeAll. simpl. rewrite map_size_empty. split; [constructor|done].
  - rewrite storeAll_snoc, map_size_insert, length_app, fmap_app, NoDup_app. simpl.
    pose proof (storeAll_size_le kvs) as Hle.
    assert (storeAll kvs ∅ !! k = None <-> k ∉ kvs.*1) as Hfresh.
    { rewrite <- not_elem_of_dom, storeAll_dom, dom_empty_L, (right_id_L ∅ (∪)).
      by rewrite elem_of_list_to_set. }
    split.
    + intros Hsize. destruct (storeAll kvs ∅ !! k) eqn:Hk; unfold id in Hsize; [lia|].
      split; [apply IH; lia|]. split; [|apply NoDup_singleton].
      intros x Hx ->%list_elem_of_singleton. by apply Hfresh.
    + intros (Hnd & Hdisj & _).
      assert (k ∉ kvs.*1) as Hk.
      { intros Hin. apply (Hdisj k Hin). by apply list_elem_of_singleton. }
      apply Hfresh in Hk. rewrite Hk. apply IH in Hnd. lia.
Qed.

Lemma entries_app {A : Type} (entry : A -> Result (string * DisplayRow)) xs ys :
  entries entry (xs ++ ys)%list
  = match entries entry xs with
    | Ok kvs1 =>
        match entries entry ys with
        | Ok kvs2 => Ok (kvs1 ++ kvs2)%list
        | Panic p => Panic p
        end
    | Panic p => Panic p
    end.
Proof.
  induction xs as [|x xs IH]; simpl.
  - unfold mbind, Result_bind, mret, Result_ret. by destruct (entries entry ys).
  - rewrite IH. unfold mbind, Result_bind, mret, Result_ret.
    destruct (entry x); [|done]. destruct (entries entry xs); [|done].
    by destruct (entries entry ys).
Qed.

Lemma entries_length {A : Type} (entry : A -> Result (string * DisplayRow)) xs kvs :
  entries entry xs = Ok kvs -> length kvs = length xs.
Proof. intros H%entries_Ok. symmetry. by eapply Forall2_length. Qed.

(** An entry that came out of a slice is the entry of one of its records. *)
Lemma entries_elem {A : Type} (entry : A -> Result (string * DisplayRow)) xs kvs kv :
  entries entry xs = Ok kvs -> kv ∈ kvs -> exists x, x ∈ xs /\ entry x = Ok kv.
Proof.
  intros H%entries_Ok [i Hi]%list_elem_of_lookup.
  destruct (Forall2_lookup_r _ _ _ _ _ H Hi) as (x & Hx & Hentry).
  exists x. split; [|done]. apply list_elem_of_lookup. by exists i.
Qed.

(** The only panic of a run of entries is the nil dereference, and it
    happens exactly when a record has no entry. *)
Lemma entries_Panic {A : Type} (entry : A -> Result (string * DisplayRow)) xs p :
  (forall x p, entry x = Panic p -> p = NilDereference) ->
  entries entry xs = Panic p ->
  p = NilDereference /\ Exists (fun x => entry x = Panic NilDereference) xs.
Proof.
  intros Hnil. induction xs as [|x xs IH]; simpl; [done|].
  unfold mbind, Result_bind, mret, Result_ret.
  destruct (entry x) as [kv|p'] eqn:Ex.
  - destruct (entries entry xs) as [kvs|p'']; [done|].
    intros [= <-]. destruct IH as [-> Hex]; [done|]. split; [done|].
    by apply Exists_cons_tl.
  - intros [= <-]. pose proof (Hnil _ _ Ex) as ->. split; [done|].
    by apply Exists_cons_hd.
Qed.

(** The rows each builder returns, off its entries. *)
Lemma ChangeMap_rows changes active h :
  rowsOf (ChangeMap changes active h)
  = match entries (changeEntry active) changes with
    | Ok kvs => Some (storeAll kvs ∅)
    | Panic _ => None
    end.
Proof.
  rewrite ChangeMap_unfold. destruct (entries _ changes); simpl; [|done].
  apply lookup_insert_eq.
Qed.

Lemma EventMap_rows events h :
  rowsOf (EventMap events h)
  = match entries eventEntry events with
    | Ok kvs => Some (storeAll kvs ∅)
    | Panic _ => None
    end.
Proof.
  rewrite EventMap_unfold. destruct (entries _ events); simpl; [|done].
  apply lookup_insert_eq.
Qed.

Lemma ResourceMap_rows resources h :
  rowsOf (ResourceMap resources h)
  = match entries resourceEntry resources with
    | Ok kvs => Some (storeAll kvs ∅)
    | Panic _ => None
    end.
Proof.
  rewrite ResourceMap_unfold. destruct (entries _ resources); simpl; [|done].
  apply lookup_insert_eq.
Qed.

Lemma changeEntry_panic_nil active change p :
  changeEntry active change = Panic p -> p = NilDereference.
Proof.
  unfold changeEntry, CreateDisplayRowFromChange.
  destruct (ch_ResourceChange change) as [rc|]; simpl; [|congruence].
  destruct (rc_LogicalResourceId rc) as [id|]; simpl; [|congruence].
  destruct (rc_ResourceType rc) as [ty|]; simpl; [done|congruence].
Qed.

Lemma resourceEntry_panic_nil resource p :
  resourceEntry resource = Panic p -> p = NilDereference.
Proof.
  unfold resourceEntry, CreateDisplayRowFromResource.
  destruct (rs_LogicalResourceId resource) as [id|]; simpl; [|congruence].
  destruct (rs_ResourceType resource) as [ty|]; simpl; [done|congruence].
Qed.

Lemma changeEntry_panic active change :
  changeEntry active change = Panic NilDereference <-> ~ changeComplete change.
Proof.
  unfold changeComplete, changeEntry, changeLogicalResourceId, changeResourceType,
    CreateDisplayRowFromChange.
  destruct (ch_ResourceChange change) as [rc|]; simpl.
  - destruct (rc_LogicalResourceId rc) as [id|]; simpl.
    + destruct (rc_ResourceType rc) as [ty|]; simpl.
      * split; [done|]. intros []. by split.
      * split; [|done]. by intros _ [_ []].
    + split; [|done]. by intros _ [[] _].
  - split; [|done]. by intros _ [[] _].
Qed.

Lemma eventEntry_panic_iff event :
  eventEntry event = Panic NilDereference <-> ~ eventComplete event.
Proof.
  split; [|apply eventEntry_panic].
  intros Hp Hc. destruct (eventEntry_total _ Hc) as [kv Hkv]. congruence.
Qed.

Lemma resourceEntry_panic resource :
  resourceEntry resource = Panic NilDereference <-> ~ resourceComplete resource.
Proof.
  split.
  - intros Hp Hc. destruct (resourceEntry_total _ Hc) as [kv Hkv]. congruence.
  - unfold resourceComplete, resourceEntry, CreateDisplayRowFromResource. intros Hinc.
    destruct (rs_LogicalResourceId resource) as [id|]; simpl; [|done].
    destruct (rs_ResourceType resource) as [ty|]; simpl; [|done].
    destruct Hinc. by split.
Qed.

End RowMapFacts.

(** The three builders share one shape; what follows from the shape is
    proved once, for a builder [build] with entry function [entry]. *)
Section Builder.

Context {A : Type}.
Variable build : list A -> Run mapref.
Variable entry : A -> Result (string * DisplayRow).
Variable id : A -> option string.
Variable conv : A -> Result DisplayRow.
Variable complete : A -> Prop.

Hypothesis build_unfold : forall xs (h : heap),
  build xs h =
    match entries entry xs with
    | Ok kvs => Ok (Some (fresh (dom h)), <[fresh (dom h) := storeAll kvs ∅]> h)
    | Panic p => Panic p
    end.
Hypothesis entry_Ok : forall x k v,
  entry x = Ok (k, v) -> id x = Some k /\ conv x = Ok v.
Hypothesis entry_panic_nil : forall x p, entry x = Panic p -> p = NilDereference.
Hypothesis entry_panic : forall x,
  entry x = Panic NilDereference <-> ~ complete x.

Lemma build_rows xs (h : heap) :
  rowsOf (build xs h)
  = match entries entry xs with
    | Ok kvs => Some (storeAll kvs ∅)
    | Panic _ => None
    end.
Proof.
  rewrite build_unfold. destruct (entries entry xs); simpl; [|done].
  apply lookup_insert_eq.
Qed.

Lemma build_rows_inv xs (h : heap) rows :
  rowsOf (build xs h) = Some rows ->
  exists kvs, entries entry xs = Ok kvs /\ rows = storeAll kvs ∅.
Proof.
  rewrite build_rows. destruct (entries entry xs) as [kvs|]; [|done].
  intros [= <-]. by exists kvs.
Qed.

Lemma entries_keys xs kvs : entries entry xs = Ok kvs -> kvs.*1 = omap id xs.
Proof.
  intros H%entries_Ok.
  induction H as [|x [k v] xs kvs Hx _ IH]; simpl; [done|].
  destruct (entry_Ok _ _ _ Hx) as [Hid _]. rewrite Hid. simpl. f_equal. exact IH.
Qed.

Lemma build_row_source xs (h : heap) rows k row :
  rowsOf (build xs h) = Some rows -> rows !! k = Some row ->
  exists x, x ∈ xs /\ id x = Some k /\ conv x = Ok row.
Proof.
  intros (kvs & Hkvs & ->)%build_rows_inv [Hin|Hempty]%storeAll_lookup_Some.
  - destruct (entries_elem _ _ _ _ Hkvs Hin) as (x & Hx & Hentry).
    destruct (entry_Ok _ _ _ Hentry). by exists x.
  - by rewrite lookup_empty in Hempty.
Qed.

Lemma build_panic xs (h : heap) :
  (forall p, build xs h = Panic p -> p = NilDereference)
  /\ (build xs h = Panic NilDereference <-> Exists (fun x => ~ complete x) xs).
Proof.
  rewrite build_unfold. split.
  - intros p. destruct (entries entry xs) as [kvs|p'] eqn:E; [done|].
    intros [= <-]. by destruct (entries_Panic entry xs p' entry_panic_nil E).
  - destruct (entries entry xs) as [kvs|p'] eqn:E.
    + split; [done|]. intros Hex. exfalso.
      apply entries_Ok in E. apply Exists_exists in Hex as (x & Hx & Hinc).
      apply list_elem_of_lookup in Hx as [i Hi].
      destruct (Forall2_lookup_l _ _ _ _ _ E Hi) as (kv & _ & Hkv).
      apply entry_panic in Hinc. congruence.
    + destruct (entries_Panic entry xs p' entry_panic_nil E) as [-> Hex].
      split; [|done]. intros _.
      eapply Exists_impl; [exact Hex|]. intros x. apply entry_panic.
Qed.

Lemma build_size xs (h : heap) rows :
  rowsOf (build xs h) = Some rows ->
  size rows <= length xs /\ (size rows = length xs <-> NoDup (omap id xs)).
Proof.
  intros (kvs & Hkvs & ->)%build_rows_inv.
  rewrite <- (entries_length _ _ _ Hkvs), <- (entries_keys _ _ Hkvs).
  split; [apply storeAll_size_le|apply storeAll_size_NoDup].
Qed.

Lemma build_app xs ys (h : heap) rows :
  rowsOf (build (xs ++ ys) h) = Some rows ->
  exists before after,
    rowsOf (build xs h) = Some before /\ rowsOf (build ys h) = Some after
    /\ rows = after ∪ before.
Proof.
  rewrite !build_rows, entries_app.
  destruct (entries entry xs) as [kvs1|]; [|done].
  destruct (entries entry ys) as [kvs2|]; [|done].
  intros [= <-]. exists (storeAll kvs1 ∅), (storeAll kvs2 ∅).
  split; [done|]. split; [done|]. by rewrite storeAll_app, storeAll_union.
Qed.

End Builder.

(** ** Row maps: what the rows are *)

(** X1: every row of a map built by [ChangeMap], [EventMap] or
    [ResourceMap] is the conversion of a record of the input whose logical
    id is the row's key, and the row's own [LogicalResourceID] is that key. *)
Theorem row_map_rows_come_from_input :
  (forall changes active (h : heap) rows k row,
      rowsOf (ChangeMap changes active h) = Some rows -> rows !! k = Some row ->
      LogicalResourceID row = k
      /\ exists change, change ∈ changes /\ changeLogicalResourceId change = Some k
           /\ CreateDisplayRowFromChange change active = Ok row)
  /\ (forall events (h : heap) rows k row,
      rowsOf (EventMap events h) = Some rows -> rows !! k = Some row ->
      LogicalResourceID row = k
      /\ exists event, event ∈ events /\ ev_LogicalResourceId event = Some k
           /\ CreateDisplayRowFromEvent event = Ok row)
  /\ (forall resources (h : heap) rows k row,
      rowsOf (ResourceMap resources h) = Some rows -> rows !! k = Some row ->
      LogicalResourceID row = k
      /\ exists resource, resource ∈ resources /\ rs_LogicalResourceId resource = Some k
           /\ CreateDisplayRowFromResource resource = Ok row).
Proof.
  split; [|split].
  - intros changes active h rows k row Hrows Hrow.
    destruct (build_row_source (fun xs => ChangeMap xs active) (changeEntry active)
                changeLogicalResourceId
                (fun change => CreateDisplayRowFromChange change active)
                (fun xs h => ChangeMap_unfold xs active h)
                (changeEntry_Ok active) changes h rows k row Hrows Hrow)
      as (change & Hin & Hid & Hconv).
    split; [|by exists change].
    pose proof (CreateDisplayRowFromChange_outcome change active) as H.
    rewrite Hconv in H. destruct H as (rc & Hrc & Hrid & _).
    unfold changeLogicalResourceId in Hid. rewrite Hrc in Hid. simpl in Hid. congruence.
  - intros events h rows k row Hrows Hrow.
    destruct (build_row_source EventMap eventEntry ev_LogicalResourceId
                CreateDisplayRowFromEvent EventMap_unfold eventEntry_Ok
                events h rows k row Hrows Hrow) as (event & Hin & Hid & Hconv).
    split; [|by exists event].
    pose proof (CreateDisplayRowFromEvent_outcome event) as H.
    rewrite Hconv in H. destruct H as (Hrid & _). congruence.
  - intros resources h rows k row Hrows Hrow.
    destruct (build_row_source ResourceMap resourceEntry rs_LogicalResourceId
                CreateDisplayRowFromResource ResourceMap_unfold resourceEntry_Ok
                resources h rows k row Hrows Hrow) as (resource & Hin & Hid & Hconv).
    split; [|by exists resource].
    pose proof (CreateDisplayRowFromResource_outcome resource) as H.
    rewrite Hconv in H. destruct H as (Hrid & _). congruence.
Qed.

Lemma row_map_rows_come_from_input_witness :
  LogicalResourceID laterRow = "Bucket"
  /\ exists event, event ∈ [sampleEvent; laterEvent]
       /\ ev_LogicalResourceId event = Some "Bucket"
       /\ CreateDisplayRowFromEvent event = Ok laterRow.
Proof.
  apply (proj1 (proj2 row_map_rows_come_from_input) [sampleEvent; laterEvent] ∅
           {[ "Bucket" := laterRow ]} "Bucket" laterRow).
  - vm_compute. reflexivity.
  - reflexivity.
Defined.

(** X2: every row of [ChangeMap(changes, active)] has the [Active] value
    that was passed and the change-set source, and carries no status,
    timestamp or status reason. *)
Theorem ChangeMap_rows_carry_flag changes active (h : heap) rows k row :
  rowsOf (ChangeMap changes active h) = Some rows -> rows !! k = Some row ->
  Active row = active /\ Source row = DisplayRowSourceChangeSet
  /\ Status row = "" /\ Timestamp row = zeroTime /\ StatusReason row = "".
Proof.
  intros Hrows Hrow.
  destruct (build_row_source (fun xs => ChangeMap xs active) (changeEntry active)
              changeLogicalResourceId
              (fun change => CreateDisplayRowFromChange change active)
              (fun xs h => ChangeMap_unfold xs active h)
              (changeEntry_Ok active) changes h rows k row Hrows Hrow)
    as (change & _ & _ & Hconv).
  pose proof (CreateDisplayRowFromChange_outcome change active) as H.
  rewrite Hconv in H. destruct H as (rc & H). tauto.
Qed.

Lemma ChangeMap_rows_carry_flag_witness :
  Active (changeRow ChangeActionRemove "B" true) = true
  /\ Source (changeRow ChangeActionRemove "B" true) = DisplayRowSourceChangeSet
  /\ Status (changeRow ChangeActionRemove "B" true) = ""
  /\ Timestamp (changeRow ChangeActionRemove "B" true) = zeroTime
  /\ StatusReason (changeRow ChangeActionRemove "B" true) = "".
Proof.
  apply (ChangeMap_rows_carry_flag sampleChanges true ∅ (sampleChangeRows true) "B").
  - vm_compute. reflexivity.
  - reflexivity.
Defined.

(** X3: no row of [EventMap] or of [ResourceMap] is active.  The rows of
    [EventMap] have the event source and no action or replacement; the rows
    of [ResourceMap] all have the action Remove, whatever the status of the
    resource, and no source. *)
Theorem EventMap_ResourceMap_rows_inactive :
  (forall events (h : heap) rows k row,
      rowsOf (EventMap events h) = Some rows -> rows !! k = Some row ->
      Active row = false /\ Source row = DisplayRowSourceEvent
      /\ Action row = "" /\ Replacement row = "")
  /\ (forall resources (h : heap) rows k row,
      rowsOf (ResourceMap resources h) = Some rows -> rows !! k = Some row ->
      Active row = false /\ Action row = ChangeActionRemove /\ Source row = ""
      /\ Status row = "").
Proof.
  split.
  - intros events h rows k row Hrows Hrow.
    destruct (build_row_source EventMap eventEntry ev_LogicalResourceId
                CreateDisplayRowFromEvent EventMap_unfold eventEntry_Ok
                events h rows k row Hrows Hrow) as (event & _ & _ & Hconv).
    pose proof (CreateDisplayRowFromEvent_outcome event) as H.
    rewrite Hconv in H. tauto.
  - intros resources h rows k row Hrows Hrow.
    destruct (build_row_source ResourceMap resourceEntry rs_LogicalResourceId
                CreateDisplayRowFromResource ResourceMap_unfold resourceEntry_Ok
                resources h rows k row Hrows Hrow) as (resource & _ & _ & Hconv).
    pose proof (CreateDisplayRowFromResource_outcome resource) as H.
    rewrite Hconv in H. tauto.
Qed.

(** [sampleResource] is created and complete; its row still says Remove. *)
Lemma EventMap_ResourceMap_rows_inactive_witness :
  rs_ResourceStatus sampleResource = ResourceStatusCreateComplete
  /\ Active (resourceRow "Bucket" "AWS::S3::Bucket") = false
  /\ Action (resourceRow "Bucket" "AWS::S3::Bucket") = ChangeActionRemove
  /\ Source (resourceRow "Bucket" "AWS::S3::Bucket") = ""
  /\ Status (resourceRow "Bucket" "AWS::S3::Bucket") = "".
Proof.
  split; [reflexivity|].
  apply (proj2 EventMap_ResourceMap_rows_inactive [sampleResource; otherResource] ∅
           {[ "Bucket" := resourceRow "Bucket" "AWS::S3::Bucket";
              "Queue" := resourceRow "Queue" "AWS::SQS::Queue" ]} "Bucket").
  - vm_compute. reflexivity.
  - reflexivity.
Defined.

(** ** Row maps: panics, size, concatenation *)

(** X4: a builder panics exactly when some record of its input lacks a
    sub-field its conversion dereferences; the panic is the nil
    dereference and never another one (the map it writes is never nil),
    and then no map is returned, not even one of the records before. *)
Theorem row_maps_panic_iff_incomplete :
  (forall changes active (h : heap),
      (forall p, ChangeMap changes active h = Panic p -> p = NilDereference)
      /\ (ChangeMap changes active h = Panic NilDereference
          <-> Exists (fun change => ~ changeComplete change) changes))
  /\ (forall events (h : heap),
      (forall p, EventMap events h = Panic p -> p = NilDereference)
      /\ (EventMap events h = Panic NilDereference
          <-> Exists (fun event => ~ eventComplete event) events))
  /\ (forall resources (h : heap),
      (forall p, ResourceMap resources h = Panic p -> p = NilDereference)
      /\ (ResourceMap resources h = Panic NilDereference
          <-> Exists (fun resource => ~ resourceComplete resource) resources)).
Proof.
  split; [|split].
  - intros changes active h.
    apply (build_panic (fun xs => ChangeMap xs active) (changeEntry active) changeComplete
             (fun xs h => ChangeMap_unfold xs active h)
             (changeEntry_panic_nil active) (changeEntry_panic active)).
  - intros events h.
    apply (build_panic EventMap eventEntry eventComplete EventMap_unfold
             eventEntry_panic_nil eventEntry_panic_iff).
  - intros resources h.
    apply (build_panic ResourceMap resourceEntry resourceComplete ResourceMap_unfold
             resourceEntry_panic_nil resourceEntry_panic).
Qed.

(** The second of three summaries has no resource type. *)
Lemma row_maps_panic_iff_incomplete_witness :
  ResourceMap [sampleResource; resourceWithoutType; otherResource] ∅
  = Panic NilDereference.
Proof.
  apply (proj2 (proj2 (proj2 row_maps_panic_iff_incomplete)
           [sampleResource; resourceWithoutType; otherResource] ∅)).
  apply Exists_cons_tl, Exists_cons_hd. unfold resourceComplete. simpl.
  intros [_ [ty Hty]]. discriminate Hty.
Defined.

(** X5: a built map never has more rows than the input has records, and
    it has as many exactly when the logical ids of the input are pairwise
    distinct: each repeated id costs a row. *)
Theorem row_maps_size :
  (forall changes active (h : heap) rows,
      rowsOf (ChangeMap changes active h) = Some rows ->
      size rows <= length changes
      /\ (size rows = length changes <-> NoDup (omap changeLogicalResourceId changes)))
  /\ (forall events (h : heap) rows,
      rowsOf (EventMap events h) = Some rows ->
      size rows <= length events
      /\ (size rows = length events <-> NoDup (omap ev_LogicalResourceId events)))
  /\ (forall resources (h : heap) rows,
      rowsOf (ResourceMap resources h) = Some rows ->
      size rows <= length resources
      /\ (size rows = length resources <-> NoDup (omap rs_LogicalResourceId resources))).
Proof.
  split; [|split].
  - intros changes active h rows.
    apply (build_size (fun xs => ChangeMap xs active) (changeEntry active)
             changeLogicalResourceId
             (fun change => CreateDisplayRowFromChange change active)
             (fun xs h => ChangeMap_unfold xs active h) (changeEntry_Ok active)).
  - intros events h rows.
    apply (build_size EventMap eventEntry ev_LogicalResourceId
             CreateDisplayRowFromEvent EventMap_unfold eventEntry_Ok).
  - intros resources h rows.
    apply (build_size ResourceMap resourceEntry rs_LogicalResourceId
             CreateDisplayRowFromResource ResourceMap_unfold resourceEntry_Ok).
Qed.

(** Two events for one id: one row. *)
Lemma row_maps_size_witness :
  size ({[ "Bucket" := laterRow ]} : gmap string DisplayRow) <= 2
  /\ (size ({[ "Bucket" := laterRow ]} : gmap string DisplayRow) = 2
      <-> NoDup (omap ev_LogicalResourceId [sampleEvent; laterEvent])).
Proof.
  apply (proj1 (proj2 row_maps_size) [sampleEvent; laterEvent] ∅).
  vm_compute. reflexivity.
Defined.

(** X6: building from two slices put one after the other gives the union
    of the two maps in which, for an id in both, the row of the second
    slice stays. *)
Theorem row_maps_concat :
  (forall changes1 changes2 active (h : heap) rows,
      rowsOf (ChangeMap (changes1 ++ changes2) active h) = Some rows ->
      exists before after,
        rowsOf (ChangeMap changes1 active h) = Some before
        /\ rowsOf (ChangeMap changes2 active h) = Some after
        /\ rows = after ∪ before)
  /\ (forall events1 events2 (h : heap) rows,
      rowsOf (EventMap (events1 ++ events2) h) = Some rows ->
      exists before after,
        rowsOf (EventMap events1 h) = Some before
        /\ rowsOf (EventMap events2 h) = Some after
        /\ rows = after ∪ before)
  /\ (forall resources1 resources2 (h : heap) rows,
      rowsOf (ResourceMap (resources1 ++ resources2) h) = Some rows ->
      exists before after,
        rowsOf (ResourceMap resources1 h) = Some before
        /\ rowsOf (ResourceMap resources2 h) = Some after
        /\ rows = after ∪ before).
Proof.
  split; [|split].
  - intros changes1 changes2 active h rows.
    apply (build_app (fun xs => ChangeMap xs active) (changeEntry active)
             (fun xs h => ChangeMap_unfold xs active h)).
  - intros events1 events2 h rows.
    apply (build_app EventMap eventEntry EventMap_unfold).
  - intros resources1 resources2 h rows.
    apply (build_app ResourceMap resourceEntry ResourceMap_unfold).
Qed.

Lemma row_maps_concat_witness :
  exists before after,
    rowsOf (EventMap [sampleEvent] ∅) = Some before
    /\ rowsOf (EventMap [laterEvent] ∅) = Some after
    /\ ({[ "Bucket" := laterRow ]} : gmap string DisplayRow) = after ∪ before.
Proof.
  apply (proj1 (proj2 row_maps_concat) [sampleEvent] [laterEvent] ∅).
  vm_compute. reflexivity.
Defined.

(** ** Activation, composed *)

Lemma setActive_idemp (a b : bool) (row : DisplayRow) :
  setActive a (setActive b row) = setActive a row.
Proof. reflexivity. Qed.

Lemma changeEntry_setActive (active : bool) (change : Change) :
  changeEntry true change
  = match changeEntry active change with
    | Ok kv => Ok (prod_map id (setActive true) kv)
    | Panic p => Panic p
    end.
Proof.
  unfold changeEntry, CreateDisplayRowFromChange.
  destruct (ch_ResourceChange change) as [rc|]; simpl; [|done].
  destruct (rc_LogicalResourceId rc) as [id|]; simpl; [|done].
  by destruct (rc_ResourceType rc) as [ty|].
Qed.

Lemma entries_changeEntry_setActive (active : bool) (changes : list Change) :
  entries (changeEntry true) changes
  = match entries (changeEntry active) changes with
    | Ok kvs => Ok (prod_map id (setActive true) <$> kvs)
    | Panic p => Panic p
    end.
Proof.
  induction changes as [|change changes IH]; simpl; [done|].
  rewrite (changeEntry_setActive active change), IH.
  unfold mbind, Result_bind, mret, Result_ret.
  destruct (changeEntry active change); [|done].
  by destruct (entries (changeEntry active) changes).
Qed.

Section ActivationComposed.

Variable order : gmap string DisplayRow -> list string.
Hypothesis order_visits_each_key_once :
  forall rows, order rows ≡ₚ (map_to_list rows).*1.

(** X7: activating the map [ChangeMap] built with any flag gives the rows
    [ChangeMap] builds with the flag [true], in a new map; the map that was
    activated keeps its rows. *)
Theorem ActivateDisplayRows_of_ChangeMap changes active (h h1 : heap) (m : mapref) :
  ChangeMap changes active h = Ok (m, h1) ->
  exists m2 h2,
    ActivateDisplayRows order m h1 = Ok (m2, h2)
    /\ m2 <> m
    /\ contents m2 h2 = rowsOf (ChangeMap changes true h)
    /\ contents m h2 = contents m h1.
Proof.
  rewrite ChangeMap_rows, ChangeMap_unfold, (entries_changeEntry_setActive active).
  destruct (entries (changeEntry active) changes) as [kvs|]; [|done].
  intros [= <- <-].
  set (q := fresh (dom h)). set (h1 := <[q := storeAll kvs ∅]> h).
  assert (contents (Some q) h1 = Some (storeAll kvs ∅)) as Hrows
    by apply lookup_insert_eq.
  assert (h1 !! fresh (dom h1) = None) as Hfresh by apply make_fresh.
  assert (fresh (dom h1) <> q) as Hne.
  { intros E. rewrite E in Hfresh. simpl in Hrows. congruence. }
  eexists _, _.
  split; [by apply ActivateDisplayRows_unfold|].
  split; [congruence|].
  split.
  - simpl. rewrite lookup_insert_eq. f_equal.
    by rewrite storeAll_fmap, fmap_empty.
  - simpl. by rewrite lookup_insert_ne.
Qed.

(** X9: activating an activated map changes no row: the second call
    returns one more new map, with the rows of the first. *)
Theorem ActivateDisplayRows_idempotent (displayRows : mapref) (h h1 : heap)
    (rows : gmap string DisplayRow) (m1 : mapref) :
  contents displayRows h = Some rows ->
  ActivateDisplayRows order displayRows h = Ok (m1, h1) ->
  exists m2 h2,
    ActivateDisplayRows order m1 h1 = Ok (m2, h2)
    /\ m2 <> m1
    /\ contents m2 h2 = contents m1 h1
    /\ contents m1 h2 = contents m1 h1.
Proof.
  intros Hrows. rewrite (ActivateDisplayRows_unfold order) with (rows := rows) by done.
  intros [= <- <-].
  set (q := fresh (dom h)). set (h1 := <[q := setActive true <$> rows]> h).
  assert (contents (Some q) h1 = Some (setActive true <$> rows)) as Hrows1
    by apply lookup_insert_eq.
  assert (h1 !! fresh (dom h1) = None) as Hfresh by apply make_fresh.
  assert (fresh (dom h1) <> q) as Hne.
  { intros E. rewrite E in Hfresh. simpl in Hrows1. congruence. }
  eexists _, _.
  split; [by apply ActivateDisplayRows_unfold|].
  split; [congruence|].
  split.
  - simpl. rewrite lookup_insert_eq. subst h1. rewrite lookup_insert_eq. f_equal.
    rewrite <- map_fmap_compose. apply map_fmap_ext. intros k row _. reflexivity.
  - simpl. by rewrite lookup_insert_ne.
Qed.

End ActivationComposed.

(** X8: the result of [ActivateDisplayRows] does not depend on the order
    in which the run time iterates over the map. *)
Theorem ActivateDisplayRows_any_order
    (order1 order2 : gmap string DisplayRow -> list string)
    (displayRows : mapref) (h : heap) (rows : gmap string DisplayRow) :
  (forall rows, order1 rows ≡ₚ (map_to_list rows).*1) ->
  (forall rows, order2 rows ≡ₚ (map_to_list rows).*1) ->
  contents displayRows h = Some rows ->
  ActivateDisplayRows order1 displayRows h = ActivateDisplayRows order2 displayRows h.
Proof.
  intros H1 H2 Hrows.
  rewrite (ActivateDisplayRows_unfold order1 H1 displayRows h rows Hrows).
  by rewrite (ActivateDisplayRows_unfold order2 H2 displayRows h rows Hrows).
Qed.

Lemma ActivateDisplayRows_of_ChangeMap_witness :
  exists m2 h2,
    ActivateDisplayRows listingOrder (Some 0) changesHeap = Ok (m2, h2)
    /\ m2 <> Some 0
    /\ contents m2 h2 = rowsOf (ChangeMap sampleChanges true ∅)
    /\ contents (Some 0) h2 = contents (Some 0) changesHeap.
Proof.
  apply (ActivateDisplayRows_of_ChangeMap listingOrder) with (active := false) (h := ∅).
  - intros rows. reflexivity.
  - vm_compute. reflexivity.
Defined.

Lemma ActivateDisplayRows_idempotent_witness :
  exists m2 h2,
    ActivateDisplayRows listingOrder (Some 1)
      {[ 0 := {[ "Bucket" := inactiveRow ]};
         1 := {[ "Bucket" := setActive true inactiveRow ]} ]} = Ok (m2, h2)
    /\ m2 <> Some 1
    /\ contents m2 h2
       = contents (Some 1)
           {[ 0 := {[ "Bucket" := inactiveRow ]};
              1 := {[ "Bucket" := setActive true inactiveRow ]} ]}
    /\ contents (Some 1) h2
       = contents (Some 1)
           {[ 0 := {[ "Bucket" := inactiveRow ]};
              1 := {[ "Bucket" := setActive true inactiveRow ]} ]}.
Proof.
  apply (ActivateDisplayRows_idempotent listingOrder) with
    (displayRows := Some 0) (h := sampleHeap) (rows := {[ "Bucket" := inactiveRow ]}).
  - intros rows. reflexivity.
  - reflexivity.
  - vm_compute. reflexivity.
Defined.

(** The two rows of [changesHeap], visited forwards and backwards. *)
Lemma ActivateDisplayRows_any_order_witness :
  listingOrder (sampleChangeRows false) <> backwardsOrder (sampleChangeRows false)
  /\ ActivateDisplayRows listingOrder (Some 0) changesHeap
     = ActivateDisplayRows backwardsOrder (Some 0) changesHeap.
Proof.
  split; [vm_compute; discriminate|].
  apply (ActivateDisplayRows_any_order listingOrder backwardsOrder (Some 0) changesHeap
           (sampleChangeRows false)).
  - intros rows. reflexivity.
  - intros rows. apply reverse_Permutation.
  - reflexivity.
Defined.

(** ** Pagination collector, in general *)

Lemma outcomes_split (outcomes : list fetch) :
  outcomes = ((Fetched <$> fetchedPrefix outcomes) ++ fromFirstFailure outcomes)%list.
Proof.
  induction outcomes as [|[page|failure] outcomes IH]; simpl; [done| |done].
  f_equal. exact IH.
Qed.

Lemma fromFirstFailure_head (outcomes : list fetch) :
  fromFirstFailure outcomes = []
  \/ exists failure rest, fromFirstFailure outcomes = FetchFailed failure :: rest.
Proof.
  induction outcomes as [|[page|failure] outcomes IH]; simpl; [by left|done|].
  right. by eexists _, _.
Qed.

Lemma summariesOf_length (pages : list ListStackResourcesOutput) :
  length (summariesOf pages)
  = sum_list ((fun page => length (out_StackResourceSummaries page)) <$> pages).
Proof.
  induction pages as [|page pages IH]; [done|].
  rewrite summariesOf_cons, length_app, IH. reflexivity.
Qed.

Lemma summariesOf_elem (pages : list ListStackResourcesOutput) resource :
  resource ∈ summariesOf pages
  <-> exists page, page ∈ pages /\ resource ∈ out_StackResourceSummaries page.
Proof.
  induction pages as [|page pages IH].
  - unfold summariesOf. simpl. split; [by intros ?%elem_of_nil|].
    by intros (page & ?%elem_of_nil & _).
  - rewrite summariesOf_cons, elem_of_app, IH. split.
    + intros [Hin|(page' & Hpage & Hin)].
      * exists page. split; [apply elem_of_cons; by left|done].
      * exists page'. split; [apply elem_of_cons; by right|done].
    + intros (page' & [->|Hpage]%elem_of_cons & Hin); [by left|].
      right. by exists page'.
Qed.

(** X10: for every paginator, [GetResourcesFromPaginator] returns (it never
    panics) the summaries of the pages that arrive before the first failed
    request, all of them and in page order; their number is the sum of the
    page sizes.  Every page is requested when no request fails, and the
    paginator's error is then the one it had. *)
Theorem GetResourcesFromPaginator_collects (outcomes : list fetch)
    (cur : option ListStackResourcesOutput) (e : option error) :
  exists paginator',
    GetResourcesFromPaginator {| pending := outcomes; curPage := cur; err := e |}
    = Ok (summariesOf (fetchedPrefix outcomes), paginator')
    /\ length (summariesOf (fetchedPrefix outcomes))
       = sum_list ((fun page => length (out_StackResourceSummaries page))
                   <$> fetchedPrefix outcomes)
    /\ CurrentPage paginator' = pageAfter cur (fetchedPrefix outcomes)
    /\ (fromFirstFailure outcomes = [] -> pending paginator' = [] /\ Err paginator' = e)
    /\ (forall failure rest,
          fromFirstFailure outcomes = FetchFailed failure :: rest ->
          pending paginator' = rest /\ Err paginator' = Some failure).
Proof.
  assert (GetResourcesFromPaginator {| pending := outcomes; curPage := cur; err := e |}
          = GetResourcesFromPaginator
              {| pending := (Fetched <$> fetchedPrefix outcomes) ++ fromFirstFailure outcomes;
                 curPage := cur; err := e |}) as ->.
  { by rewrite <- outcomes_split. }
  destruct (fromFirstFailure_head outcomes) as [Hnone|(failure & rest & Hfail)].
  - rewrite Hnone, app_nil_r. eexists.
    split; [apply GetResourcesFromPaginator_all|].
    split; [apply summariesOf_length|]. split; [done|]. split; [done|].
    intros failure rest. discriminate.
  - rewrite Hfail. eexists.
    split; [apply GetResourcesFromPaginator_failure|].
    split; [apply summariesOf_length|]. split; [done|]. split; [discriminate|].
    by intros failure' rest' [= <- <-].
Qed.

(** X11: a paginator that was collected to its last page is used up:
    collecting from it again returns the empty slice and leaves it as it
    is. *)
Theorem GetResourcesFromPaginator_again (pages : list ListStackResourcesOutput)
    (cur : option ListStackResourcesOutput) (e : option error)
    (resources : list StackResourceSummary) (paginator' : ListStackResourcesPaginator) :
  GetResourcesFromPaginator {| pending := Fetched <$> pages; curPage := cur; err := e |}
  = Ok (resources, paginator') ->
  GetResourcesFromPaginator paginator' = Ok ([], paginator').
Proof.
  rewrite GetResourcesFromPaginator_all. intros [= <- <-].
  apply (GetResourcesFromPaginator_all []).
Qed.

Lemma GetResourcesFromPaginator_again_witness :
  GetResourcesFromPaginator
    {| pending := []; curPage := Some firstPage; err := None |}
  = Ok ([], {| pending := []; curPage := Some firstPage; err := None |}).
Proof.
  apply (GetResourcesFromPaginator_again [firstPage] None None [sampleResource]).
  apply (GetResourcesFromPaginator_all [firstPage]).
Defined.

(** X12: the map [ResourceMap] builds from a listing that was collected
    whole has one row for every logical id on any page, and no other; every
    row has the action Remove and is not active. *)
Theorem ResourceMap_of_collected_pages (pages : list ListStackResourcesOutput)
    (cur : option ListStackResourcesOutput) (e : option error)
    (resources : list StackResourceSummary) (paginator' : ListStackResourcesPaginator)
    (h : heap) :
  GetResourcesFromPaginator {| pending := Fetched <$> pages; curPage := cur; err := e |}
  = Ok (resources, paginator') ->
  Forall resourceComplete (summariesOf pages) ->
  exists rows,
    rowsOf (ResourceMap resources h) = Some rows
    /\ (forall k, k ∈ dom rows <->
          exists page resource, page ∈ pages
            /\ resource ∈ out_StackResourceSummaries page
            /\ rs_LogicalResourceId resource = Some k)
    /\ (forall k row, rows !! k = Some row ->
          Action row = ChangeActionRemove /\ Active row = false
          /\ LogicalResourceID row = k).
Proof.
  rewrite GetResourcesFromPaginator_all. intros [= <- <-] Hall.
  destruct (ResourceMap_total _ h Hall) as [r Hr].
  destruct (ResourceMap_keyed _ _ _ Hr) as (q & rows & [= ->] & Hq & Hkeys & _).
  exists rows. rewrite Hr. split; [apply lookup_insert_eq|]. split.
  - intros k. rewrite Hkeys. split.
    + intros (resource & (page & Hpage & Hin)%summariesOf_elem & Hid).
      by exists page, resource.
    + intros (page & resource & Hpage & Hin & Hid).
      exists resource. split; [|done]. apply summariesOf_elem. by exists page.
  - intros k row Hrow.
    assert (rowsOf (ResourceMap (summariesOf pages) h) = Some rows) as Hrows.
    { rewrite Hr. apply lookup_insert_eq. }
    destruct (build_row_source ResourceMap resourceEntry rs_LogicalResourceId
                CreateDisplayRowFromResource ResourceMap_unfold resourceEntry_Ok
                _ h rows k row Hrows Hrow) as (resource & _ & Hid & Hconv).
    pose proof (CreateDisplayRowFromResource_outcome resource) as H.
    rewrite Hconv in H. destruct H as (Hrid & _ & Hact & _ & Hactive & _).
    repeat split; [done|done|congruence].
Qed.

Lemma ResourceMap_of_collected_pages_witness :
  exists rows,
    rowsOf (ResourceMap [sampleResource; otherResource] ∅) = Some rows
    /\ (forall k, k ∈ dom rows <->
          exists page resource, page ∈ [firstPage; secondPage]
            /\ resource ∈ out_StackResourceSummaries page
            /\ rs_LogicalResourceId resource = Some k)
    /\ (forall k row, rows !! k = Some row ->
          Action row = ChangeActionRemove /\ Active row = false
          /\ LogicalResourceID row = k).
Proof.
  apply (ResourceMap_of_collected_pages [firstPage; secondPage] None None
           [sampleResource; otherResource]
           {| pending := []; curPage := Some secondPage; err := None |} ∅).
  - apply (GetResourcesFromPaginator_all [firstPage; secondPage]).
  - repeat constructor; by eexists.
Defined.

(** ** Provenance of a row *)

(** X13: the [Source] of a row tells which converter made it: "change" for
    a change, "event" for an event and the empty string for a resource
    summary; so rows made by two different converters are never equal. *)
Theorem converters_tell_apart change active event resource
    (fromChange fromEvent fromResource : DisplayRow) :
  CreateDisplayRowFromChange change active = Ok fromChange ->
  CreateDisplayRowFromEvent event = Ok fromEvent ->
  CreateDisplayRowFromResource resource = Ok fromResource ->
  Source fromChange = "change" /\ Source fromEvent = "event"
  /\ Source fromResource = ""
  /\ fromChange <> fromEvent /\ fromEvent <> fromResource
  /\ fromChange <> fromResource.
Proof.
  intros Hc He Hr.
  pose proof (CreateDisplayRowFromChange_outcome change active) as H1.
  pose proof (CreateDisplayRowFromEvent_outcome event) as H2.
  pose proof (CreateDisplayRowFromResource_outcome resource) as H3.
  rewrite Hc in H1. rewrite He in H2. rewrite Hr in H3.
  destruct H1 as (rc & _ & _ & _ & _ & _ & Hs1 & _).
  destruct H2 as (_ & _ & _ & _ & Hs2 & _).
  destruct H3 as (_ & _ & _ & Hs3 & _).
  unfold DisplayRowSourceChangeSet, DisplayRowSourceEvent, zeroString in *.
  repeat split; [done|done|done|..]; intros E; rewrite E in *; congruence.
Qed.

Lemma converters_tell_apart_witness :
  Source (changeRow ChangeActionAdd "Bucket" false) = "change"
  /\ Source laterRow = "event"
  /\ Source (resourceRow "Bucket" "AWS::S3::Bucket") = ""
  /\ changeRow ChangeActionAdd "Bucket" false <> laterRow
  /\ laterRow <> resourceRow "Bucket" "AWS::S3::Bucket"
  /\ changeRow ChangeActionAdd "Bucket" false <> resourceRow "Bucket" "AWS::S3::Bucket".
Proof.
  apply (converters_tell_apart
           {| ch_ResourceChange := Some {|
                rc_Action := ChangeActionAdd;
                rc_LogicalResourceId := Some "Bucket";
                rc_PhysicalResourceId := None;
                rc_Replacement := "";
                rc_ResourceType := Some "AWS::SNS::Topic" |};
              ch_Type := "Resource" |}
           false laterEvent sampleResource); reflexivity.
Defined.

(** ** Stack-level status tables *)

(** X14: no stack status is in two of the tables [PositiveStackStatus],
    [NegativeStackStatus] and [PendingStackStatus], and no table lists a
    status twice; together they hold seventeen statuses. *)
Theorem stack_status_tables_disjoint :
  (forall s : StackStatus,
      ~ (s ∈ PositiveStackStatus /\ s ∈ NegativeStackStatus)
      /\ ~ (s ∈ PositiveStackStatus /\ s ∈ PendingStackStatus)
      /\ ~ (s ∈ NegativeStackStatus /\ s ∈ PendingStackStatus))
  /\ NoDup PositiveStackStatus /\ NoDup NegativeStackStatus /\ NoDup PendingStackStatus
  /\ length (PositiveStackStatus ++ NegativeStackStatus ++ PendingStackStatus) = 17.
Proof.
  assert (NoDup (PositiveStackStatus ++ NegativeStackStatus ++ PendingStackStatus)) as Hnd.
  { apply (bool_decide_unpack _). vm_compute. reflexivity. }
  apply NoDup_app in Hnd as (Hpos & Hdisj & Hrest).
  apply NoDup_app in Hrest as (Hneg & Hdisj' & Hpend).
  split; [|by repeat split].
  intros s. split; [|split].
  - intros [Hp Hn]. apply (Hdisj s Hp). apply elem_of_app. by left.
  - intros [Hp Hn]. apply (Hdisj s Hp). apply elem_of_app. by right.
  - intros [Hn Hp]. by apply (Hdisj' s Hn).
Qed.

(** ** Tag and parameter loaders, in general *)



(** ** Command [down] *)

(** X16: whatever package [cfn] answers, [downAction] first verifies the
    credentials, once.  When that fails it returns the failure and asks for
    no deletion.  Otherwise it asks once for the deletion of the stack
    named by the flag "stack", of no other stack, and returns what the
    deletion returned.  The flag it reads is a required flag of
    [DownCommand], whose action it is. *)
Theorem downAction_deletes_after_verification {W : Type} (pkg : cfnPackage W)
    (c : Context) (w : W) :
  match verifyAWSCredentials pkg w with
  | (Some failure, w1) =>
      exec pkg (downAction c) w [] = (Some failure, w1, [VerifyAWSCredentials])
  | (None, w1) =>
      exec pkg (downAction c) w []
      = (deleteStack pkg (Context_String c "stack") w1,
         [VerifyAWSCredentials; DeleteStack (Context_String c "stack")])
  end
  /\ cmd_Action DownCommand = downAction
  /\ Exists (fun flag => flag_Name flag = "stack" /\ flag_Required flag = true)
       (cmd_Flags DownCommand).
Proof.
  split; [|split; [reflexivity|]].
  - unfold downAction, Down. simpl.
    destruct (verifyAWSCredentials pkg w) as [[failure|] w1]; simpl; [done|].
    destruct (deleteStack pkg (Context_String c "stack") w1) as [[failure|] w2]; done.
  - apply Exists_cons_hd. by split.
Qed.

(** With expired credentials the stack "demo" stays; with good ones it is
    deleted. *)
Example downAction_expired_credentials :
  exec (sampleCfn false) (downAction downContext) ["demo"; "other"] []
  = (Some (RequestError "ExpiredToken" "The security token is expired"),
     ["demo"; "other"], [VerifyAWSCredentials]).
Proof. reflexivity. Qed.

Example downAction_good_credentials :
  exec (sampleCfn true) (downAction downContext) ["demo"; "other"] []
  = (None, ["other"], [VerifyAWSCredentials; DeleteStack "demo"]).
Proof. vm_compute. reflexivity. Qed.
